(** * arduino-pin-toggler: a shallow embedding of [pinToggler.h]

    The library keeps one heap-allocated [pinToggler<numPins>] object behind
    the static pointer [pinTogglerBase::_instance]; the TIMER1 overflow
    interrupt calls its [doLoop], which advances one 8-bit counter per pin and
    toggles the pins whose counter reached 8.

    The embedding is by explicit state passing.  The C++ object is a record of
    three arrays, the board (pin directions, pin levels, TIMER1 registers) is a
    second record, and the static pointer together with the board form the
    [system] on which the static member functions and the interrupt routine
    act. *)

From Stdlib Require Import ZArith List Bool Lia.
From stdpp Require Import base option list gmap.

Local Open Scope Z_scope.

(** ** Fixed-width integers *)

(** Conversion of an [int] result to [uint8_t] / [uint16_t]: reduction modulo
    2^8 / 2^16.  [int] is 16 bits wide on the AVR targets of the library. *)
Definition uint8_t (z : Z) : Z := z mod 256.
Definition uint16_t (z : Z) : Z := z mod 65536.
Definition int16_t (z : Z) : Z := (z + 32768) mod 65536 - 32768.

(** ** Constants and the rate enumeration *)

Definition PRESCALER : Z := 1024.
Definition FLASH_FREQ_HZ : Z := 8.

Inductive FLASHRATE : Set := OFF | SLOW | MEDIUM | FAST | MAX.

(** The enumerator values of [enum FLASHRATE]. *)
Definition FLASHRATE_value (r : FLASHRATE) : Z :=
  match r with
  | OFF => 0
  | SLOW => 1
  | MEDIUM => 2
  | FAST => 4
  | MAX => 8
  end.

(** [static const int timer1_counter = 65536 - 16000000/PRESCALER/FLASH_FREQ_HZ]:
    the initialiser is evaluated in [long] and stored in a 16-bit [int]. *)
Definition timer1_counter : Z :=
  int16_t (65536 - 16000000 / PRESCALER / FLASH_FREQ_HZ).

(** ** The board *)

(** Modelled from the spec: the platform layer ([pinMode], [digitalWrite],
    [digitalRead] of the Arduino core, and the TIMER1 registers of the AVR
    header), which the source calls and which is not in the repository.
    Section 6 of the specification gives it as [configureOutput],
    [writeLevel] and [readLevel]: a level written to a pin is the level read
    back from it.  Pin directions and levels are kept in finite maps indexed
    by the pin number, so that two slots holding the same pin number share
    one level; a pin that was never written reads [LOW].  The TIMER1
    registers are plain fields. *)

Inductive PINMODE : Set := INPUT | OUTPUT.

Definition LOW : Z := 0.
Definition HIGH : Z := 1.

Record hardware : Type := mkHardware {
  pin_mode : gmap Z PINMODE;
  pin_level : gmap Z bool;
  TCCR1A : Z;
  TCCR1B : Z;
  TCNT1 : Z;
  TIMSK1 : Z;
  global_interrupts : bool
}.

(** The bit positions [CS12], [CS10] and [TOIE1] come from the AVR header; the
    source uses them by name only, and they are a parameter here. *)
Class avr_io : Set := mkAvrIo {
  CS12 : Z;
  CS10 : Z;
  TOIE1 : Z
}.

Definition pinMode (pin : Z) (m : PINMODE) (h : hardware) : hardware :=
  mkHardware (<[pin := m]> (pin_mode h)) (pin_level h)
             (TCCR1A h) (TCCR1B h) (TCNT1 h) (TIMSK1 h) (global_interrupts h).

(** [digitalWrite(pin, val)] drives the pin low when [val == LOW] and high for
    every other value. *)
Definition digitalWrite (pin : Z) (val : Z) (h : hardware) : hardware :=
  mkHardware (pin_mode h) (<[pin := negb (val =? LOW)]> (pin_level h))
             (TCCR1A h) (TCCR1B h) (TCNT1 h) (TIMSK1 h) (global_interrupts h).

(** [digitalRead(pin)] is [HIGH] or [LOW]. *)
Definition digitalRead (pin : Z) (h : hardware) : Z :=
  match pin_level h !! pin with
  | Some true => HIGH
  | _ => LOW
  end.

Definition set_global_interrupts (b : bool) (h : hardware) : hardware :=
  mkHardware (pin_mode h) (pin_level h)
             (TCCR1A h) (TCCR1B h) (TCNT1 h) (TIMSK1 h) b.
Definition noInterrupts : hardware -> hardware := set_global_interrupts false.
Definition interrupts : hardware -> hardware := set_global_interrupts true.

Definition set_TCCR1A (v : Z) (h : hardware) : hardware :=
  mkHardware (pin_mode h) (pin_level h)
             v (TCCR1B h) (TCNT1 h) (TIMSK1 h) (global_interrupts h).
Definition set_TCCR1B (v : Z) (h : hardware) : hardware :=
  mkHardware (pin_mode h) (pin_level h)
             (TCCR1A h) v (TCNT1 h) (TIMSK1 h) (global_interrupts h).
Definition set_TCNT1 (v : Z) (h : hardware) : hardware :=
  mkHardware (pin_mode h) (pin_level h)
             (TCCR1A h) (TCCR1B h) v (TIMSK1 h) (global_interrupts h).
Definition set_TIMSK1 (v : Z) (h : hardware) : hardware :=
  mkHardware (pin_mode h) (pin_level h)
             (TCCR1A h) (TCCR1B h) (TCNT1 h) v (global_interrupts h).

(** ** The object *)

(** [pinToggler<numPins>]: the template argument is kept in the object, where
    the virtual [numDerivedPins] finds it; the three member arrays have
    [numPins] cells each. *)
Record pinToggler : Type := mkPinToggler {
  numDerivedPins : nat;
  _LED_Pins : list Z;
  _LED_count : list Z;
  _LED_add : list Z
}.

Definition set_LED_Pins (a : list Z) (t : pinToggler) : pinToggler :=
  mkPinToggler (numDerivedPins t) a (_LED_count t) (_LED_add t).
Definition set_LED_count (a : list Z) (t : pinToggler) : pinToggler :=
  mkPinToggler (numDerivedPins t) (_LED_Pins t) a (_LED_add t).
Definition set_LED_add (a : list Z) (t : pinToggler) : pinToggler :=
  mkPinToggler (numDerivedPins t) (_LED_Pins t) (_LED_count t) a.

(** [new pinToggler]: every array is initialised with [= {0}]. *)
Definition new_pinToggler (numPins : nat) : pinToggler :=
  mkPinToggler numPins (replicate numPins 0) (replicate numPins 0)
               (replicate numPins 0).

(** The arrays of an object have the size its type gives them. *)
Definition shaped (t : pinToggler) : Prop :=
  length (_LED_Pins t) = numDerivedPins t /\
  length (_LED_count t) = numDerivedPins t /\
  length (_LED_add t) = numDerivedPins t.

(** [for (i = 0; i < n; i++) body]. *)
Definition for_loop {S : Type} (n : nat) (body : nat -> S -> S) (s : S) : S :=
  fold_left (fun acc i => body i acc) (seq 0 n) s.

(** One iteration of the loop of [setupSingleton].  [LED_Pins] is the
    caller's array; it has to hold [numPins] cells for the reads to be
    defined. *)
Definition setup_body (LED_Pins : list Z) (i : nat)
    (st : pinToggler * hardware) : pinToggler * hardware :=
  let (t, h) := st in
  let t := set_LED_Pins (<[i := LED_Pins !!! i]> (_LED_Pins t)) t in
  let h := pinMode (LED_Pins !!! i) OUTPUT h in
  let h := digitalWrite (LED_Pins !!! i) LOW h in
  (t, h).

Definition setupSingleton `{avr_io} (LED_Pins : list Z)
    (st : pinToggler * hardware) : pinToggler * hardware :=
  let (t, h) := for_loop (numDerivedPins (fst st)) (setup_body LED_Pins) st in
  let h := noInterrupts h in
  let h := set_TCCR1A 0 h in
  let h := set_TCCR1B 0 h in
  let h := set_TCNT1 (uint16_t timer1_counter) h in
  let h := set_TCCR1B (uint8_t (Z.lor (TCCR1B h) (Z.shiftl 1 CS12))) h in
  let h := set_TCCR1B (uint8_t (Z.lor (TCCR1B h) (Z.shiftl 1 CS10))) h in
  let h := set_TIMSK1 (uint8_t (Z.lor (TIMSK1 h) (Z.shiftl 1 TOIE1))) h in
  let h := interrupts h in
  (t, h).

(** [setObjFlashRate]: [_LED_add[LED] = rate]. *)
Definition setObjFlashRate (LED : nat) (rate : FLASHRATE) (t : pinToggler)
    : pinToggler :=
  set_LED_add (<[LED := uint8_t (FLASHRATE_value rate)]> (_LED_add t)) t.

(** One iteration of the loop of [doLoop]:
    [_LED_count[i] += _LED_add[i]] in [uint8_t], then the test against 8. *)
Definition loop_body (i : nat) (st : pinToggler * hardware)
    : pinToggler * hardware :=
  let (t, h) := st in
  let t :=
    set_LED_count
      (<[i := uint8_t (_LED_count t !!! i + _LED_add t !!! i)]> (_LED_count t))
      t in
  if 8 <=? _LED_count t !!! i then
    let t := set_LED_count (<[i := 0]> (_LED_count t)) t in
    let h :=
      digitalWrite (_LED_Pins t !!! i)
                   (Z.lxor (digitalRead (_LED_Pins t !!! i) h) 1) h in
    (t, h)
  else (t, h).

Definition doLoop (st : pinToggler * hardware) : pinToggler * hardware :=
  for_loop (numDerivedPins (fst st)) loop_body st.

(** ** The static interface *)

(** The static pointer [pinTogglerBase::_instance] ([None] is [NULL]) and the
    board. *)
Record system : Type := mkSystem {
  _instance : option pinToggler;
  hw : hardware
}.

(** [pinToggler<numPins>::init(LED_Pins)].  The function is declared [int];
    its first branch returns -1, and the path that builds the object runs off
    the closing brace without a [return], so that it yields no value:
    the result code is [None] there. *)
Definition init `{avr_io} (numPins : nat) (LED_Pins : list Z) (s : system)
    : option Z * system :=
  match _instance s with
  | Some _ => (Some (-1), s)
  | None =>
      let (singletonInstance, h) :=
        setupSingleton LED_Pins (new_pinToggler numPins, hw s) in
      (None, mkSystem (Some singletonInstance) h)
  end.

(** [pinToggler<numPins>::setFlashRate(LED, rate)]. *)
Definition setFlashRate (numPins : nat) (LED : nat) (rate : FLASHRATE)
    (s : system) : Z * system :=
  match _instance s with
  | None => (-1, s)
  | Some t =>
      if negb (numDerivedPins t =? numPins)%nat then (-2, s)
      else if (numPins <=? LED)%nat then (-3, s)
      else
        (0, mkSystem
              (Some (set_LED_add
                       (<[LED := uint8_t (FLASHRATE_value rate)]> (_LED_add t))
                       t))
              (hw s))
  end.

(** [ISR(TIMER1_OVF_vect)]: reload the timer and run [doLoop] through the
    static pointer.  With a null pointer the call has no defined result. *)
Definition TIMER1_OVF_vect (s : system) : option system :=
  match _instance s with
  | None => None
  | Some t =>
      let (t', h') := doLoop (t, set_TCNT1 (uint16_t timer1_counter) (hw s)) in
      Some (mkSystem (Some t') h')
  end.

(** ** Programs over the static interface *)

(** What the application and the timer can do to the system. *)
Inductive call : Type :=
  | Call_init (numPins : nat) (LED_Pins : list Z)
  | Call_setFlashRate (numPins LED : nat) (rate : FLASHRATE)
  | Interrupt.

(** One call.  An [init] that builds the object reads [numPins] cells of the
    caller's array, so the array has to hold that many; the interrupt has to
    find an object. *)
Definition exec `{avr_io} (c : call) (s : system) : option system :=
  match c with
  | Call_init numPins LED_Pins =>
      match _instance s with
      | Some _ => Some (snd (init numPins LED_Pins s))
      | None =>
          if (numPins <=? length LED_Pins)%nat
          then Some (snd (init numPins LED_Pins s))
          else None
      end
  | Call_setFlashRate numPins LED rate =>
      Some (snd (setFlashRate numPins LED rate s))
  | Interrupt => TIMER1_OVF_vect s
  end.

Fixpoint run `{avr_io} (cs : list call) (s : system) : option system :=
  match cs with
  | [] => Some s
  | c :: cs' =>
      match exec c s with
      | Some s' => run cs' s'
      | None => None
      end
  end.

(** The system at reset: no object yet, the board in any state. *)
Definition boot (h : hardware) : system := mkSystem None h.

(** [n] runs of [doLoop]. *)
Definition ticks (n : nat) (st : pinToggler * hardware)
    : pinToggler * hardware :=
  Nat.iter n doLoop st.

(** The number of level changes of [pin] seen by an observer who samples the
    pin after each of [n] consecutive runs of [doLoop]. *)
Fixpoint inversions (pin : Z) (n : nat) (st : pinToggler * hardware) : nat :=
  match n with
  | O => O
  | S n' =>
      let st' := doLoop st in
      ((if Z.eqb (digitalRead pin (snd st')) (digitalRead pin (snd st))
        then 0 else 1) + inversions pin n' st')%nat
  end.

(** ** The accumulator of one slot *)

(** What [loop_body] computes for a slot whose counter is [c] and whose
    increment is [a]: whether the slot toggles, and its next counter. *)
Definition fires (c a : Z) : bool := 8 <=? uint8_t (c + a).
Definition next_count (c a : Z) : Z :=
  if fires c a then 0 else uint8_t (c + a).

Definition toggle (pin : Z) (h : hardware) : hardware :=
  digitalWrite pin (Z.lxor (digitalRead pin h) 1) h.

(** The board after the first [k] slots of a [doLoop] from [(t, h)]. *)
Definition toggled_upto (t : pinToggler) (k : nat) (h : hardware)
    : hardware :=
  for_loop k
    (fun i h' =>
       if fires (_LED_count t !!! i) (_LED_add t !!! i)
       then toggle (_LED_Pins t !!! i) h' else h')
    h.

(** Toggles of one slot over [n] ticks, from counter [c] with increment [a]. *)
Fixpoint slot_toggles (n : nat) (c a : Z) : nat :=
  match n with
  | O => O
  | S n' => ((if fires c a then 1 else 0) + slot_toggles n' (next_count c a) a)%nat
  end.

(** ** The step as the specification words it *)

Definition PHASE_MAX : Z := 8.

(** "Invert the pin's output level (read current level, write the
    complement)". *)
Definition invert_level (pin : Z) (h : hardware) : hardware :=
  let level := digitalRead pin h in
  digitalWrite pin (if level =? LOW then HIGH else LOW) h.

(** "Set phase[i] = phase[i] + rateIncrement[i].  If the new
    phase[i] >= PHASE_MAX, reset phase[i] = 0 and invert the pin's output
    level", the sum being the sum of the integers. *)
Definition step_slot (i : nat) (st : pinToggler * hardware)
    : pinToggler * hardware :=
  let (t, h) := st in
  let phase := _LED_count t !!! i + _LED_add t !!! i in
  if PHASE_MAX <=? phase
  then (set_LED_count (<[i := 0]> (_LED_count t)) t,
        invert_level (_LED_Pins t !!! i) h)
  else (set_LED_count (<[i := phase]> (_LED_count t)) t, h).

Definition step (st : pinToggler * hardware) : pinToggler * hardware :=
  for_loop (numDerivedPins (fst st)) step_slot st.

(** ** Invariants of the data *)

Definition rate_values : list Z := [0; 1; 2; 4; 8].

(** The state of an object the interface can produce: arrays of the right
    size, counters below 8, increments among the enumerator values. *)
Definition valid (t : pinToggler) : Prop :=
  shaped t /\
  Forall (fun c => 0 <= c < 8) (_LED_count t) /\
  Forall (fun a => a ∈ rate_values) (_LED_add t).

(** The bounds under which the 8-bit sum of [doLoop] cannot wrap: counters
    below 8, increments at most 8. *)
Definition bounded (t : pinToggler) : Prop :=
  shaped t /\
  Forall (fun c => 0 <= c < 8) (_LED_count t) /\
  Forall (fun a => 0 <= a <= 8) (_LED_add t).

(** Whether the system holds no object, or one in a valid state. *)
Definition system_valid (s : system) : Prop :=
  forall t : pinToggler, _instance s = Some t -> valid t.

(** The slot [i] is the only one that drives its pin: no other slot of the
    object holds the same pin number. *)
Definition drives_alone (t : pinToggler) (i : nat) : Prop :=
  forall j : nat, (j < numDerivedPins t)%nat -> j <> i ->
    _LED_Pins t !!! j <> _LED_Pins t !!! i.

Definition sole_driver (t : pinToggler) (i : nat) : bool :=
  forallb
    (fun j => (j =? i)%nat || negb (_LED_Pins t !!! j =? _LED_Pins t !!! i))
    (seq 0 (numDerivedPins t)).

(** A board with nothing configured, and the bit positions of the
    ATmega328P. *)
Definition blank_board : hardware :=
  mkHardware ∅ ∅ 0 0 0 0 true.

Definition atmega328p : avr_io := mkAvrIo 2 0 0.

(** ** Sample configurations *)

(** Three pins, the middle one at [MEDIUM]: the state after
    [init({13, 18, 19})] and [setFlashRate(1, MEDIUM)]. *)
Definition three_pins : pinToggler :=
  mkPinToggler 3 [13; 18; 19] [0; 0; 0] [0; 2; 0].

Definition three_pins_calls : list call :=
  [Call_init 3 [13; 18; 19]; Call_setFlashRate 3 1 MEDIUM].

Definition three_pins_system : system :=
  mkSystem (Some three_pins)
    (hw (snd (init (H := atmega328p) 3 [13; 18; 19] (boot blank_board)))).

(** [three_pins_system] after a tick, [setFlashRate(0, MAX)] and two more
    ticks. *)
Definition later_calls : list call :=
  [Interrupt; Call_setFlashRate 3 0 MAX; Interrupt; Interrupt].

Definition three_pins_later : pinToggler :=
  mkPinToggler 3 [13; 18; 19] [0; 6; 0] [8; 2; 0].

Definition three_pins_later_system : system :=
  default three_pins_system
    (run (H := atmega328p) later_calls three_pins_system).

(** The same pin given twice to [init], the first slot then set to [MAX]. *)
Definition shared_pin_system : system :=
  snd (setFlashRate 2 0 MAX
         (snd (init (H := atmega328p) 2 [13; 13] (boot blank_board)))).

Definition shared_pin : pinToggler :=
  mkPinToggler 2 [13; 13] [0; 0] [8; 0].

(** ** Pins shared by several slots *)

(** The number of slots of [t] that hold [pin] and toggle in the next run of
    [doLoop]. *)
Definition firing_on (t : pinToggler) (pin : Z) : nat :=
  for_loop (numDerivedPins t)
    (fun i n =>
       if (_LED_Pins t !!! i =? pin) &&
          fires (_LED_count t !!! i) (_LED_add t !!! i)
       then S n else n)
    O.

(** The level [v] after [n] inversions. *)
Definition flips (n : nat) (v : Z) : Z := if Nat.even n then v else 1 - v.

(** The calls that lead from reset to [three_pins_later_system]. *)
Definition all_calls : list call := three_pins_calls ++ later_calls.

(** Two slots on pin 13, both at [MAX]. *)
Definition both_MAX : pinToggler :=
  mkPinToggler 2 [13; 13] [0; 0] [8; 8].

(** The state after the first [k] iterations of [doLoop]. *)
Record prefix_of_doLoop (t : pinToggler) (h : hardware) (k : nat)
    (st : pinToggler * hardware) : Prop := mkPrefix {
  prefix_num : numDerivedPins (fst st) = numDerivedPins t;
  prefix_pins : _LED_Pins (fst st) = _LED_Pins t;
  prefix_add : _LED_add (fst st) = _LED_add t;
  prefix_length : length (_LED_count (fst st)) = length (_LED_count t);
  prefix_done : forall j : nat, (j < k)%nat ->
    _LED_count (fst st) !!! j =
      next_count (_LED_count t !!! j) (_LED_add t !!! j);
  prefix_todo : forall j : nat, (k <= j)%nat ->
    _LED_count (fst st) !!! j = _LED_count t !!! j;
  prefix_hw : snd st = toggled_upto t k h
}.

(** * Properties *)

(** ** Loops *)

Lemma for_loop_0 {S : Type} (body : nat -> S -> S) (s : S) :
  for_loop 0 body s = s.
Proof. reflexivity. Qed.

Lemma for_loop_S {S : Type} (n : nat) (body : nat -> S -> S) (s : S) :
  for_loop (Datatypes.S n) body s = body n (for_loop n body s).
Proof.
  unfold for_loop. rewrite seq_S, fold_left_app. reflexivity.
Qed.

(** ** Arithmetic of one slot *)

Lemma uint8_t_range (z : Z) : 0 <= uint8_t z < 256.
Proof. unfold uint8_t. apply Z.mod_pos_bound. lia. Qed.

Lemma uint8_t_small (z : Z) : 0 <= z < 256 -> uint8_t z = z.
Proof. intros Hz. unfold uint8_t. apply Z.mod_small. exact Hz. Qed.

Lemma next_count_range (c a : Z) : 0 <= next_count c a < 8.
Proof.
  unfold next_count, fires.
  destruct (Z.leb_spec 8 (uint8_t (c + a))) as [Hge | Hlt].
  - lia.
  - pose proof (uint8_t_range (c + a)). lia.
Qed.

Lemma rate_values_bound (a : Z) : a ∈ rate_values -> 0 <= a <= 8.
Proof.
  unfold rate_values. rewrite !elem_of_cons, elem_of_nil. lia.
Qed.

Lemma FLASHRATE_value_rate_values (r : FLASHRATE) :
  uint8_t (FLASHRATE_value r) ∈ rate_values.
Proof.
  destruct r; cbn [FLASHRATE_value]; rewrite uint8_t_small by lia;
    unfold rate_values; rewrite !elem_of_cons; auto 10.
Qed.

(** ** Pins *)

Lemma digitalRead_cases (pin : Z) (h : hardware) :
  digitalRead pin h = LOW \/ digitalRead pin h = HIGH.
Proof.
  unfold digitalRead. destruct (pin_level h !! pin) as [[|]|]; auto.
Qed.

Lemma digitalRead_digitalWrite_eq (pin v : Z) (h : hardware) :
  digitalRead pin (digitalWrite pin v h) = if v =? LOW then LOW else HIGH.
Proof.
  unfold digitalRead, digitalWrite. simpl. rewrite lookup_insert_eq.
  destruct (v =? LOW); reflexivity.
Qed.

Lemma digitalRead_digitalWrite_ne (pin pin' v : Z) (h : hardware) :
  pin' <> pin -> digitalRead pin (digitalWrite pin' v h) = digitalRead pin h.
Proof.
  intros Hne. unfold digitalRead, digitalWrite. simpl.
  rewrite lookup_insert_ne by exact Hne. reflexivity.
Qed.

Lemma digitalRead_toggle_eq (pin : Z) (h : hardware) :
  digitalRead pin (toggle pin h) = 1 - digitalRead pin h.
Proof.
  unfold toggle. rewrite digitalRead_digitalWrite_eq.
  destruct (digitalRead_cases pin h) as [-> | ->]; reflexivity.
Qed.

Lemma digitalRead_toggle_ne (pin pin' : Z) (h : hardware) :
  pin' <> pin -> digitalRead pin (toggle pin' h) = digitalRead pin h.
Proof. intros Hne. unfold toggle. apply digitalRead_digitalWrite_ne, Hne. Qed.

Lemma toggle_invert_level (pin : Z) (h : hardware) :
  toggle pin h = invert_level pin h.
Proof.
  unfold toggle, invert_level.
  destruct (digitalRead_cases pin h) as [-> | ->]; reflexivity.
Qed.

(** ** One iteration of [doLoop] *)

Lemma loop_body_eq (i : nat) (t : pinToggler) (h : hardware) :
  (i < length (_LED_count t))%nat ->
  loop_body i (t, h) =
    (set_LED_count
       (<[i := next_count (_LED_count t !!! i) (_LED_add t !!! i)]>
          (_LED_count t)) t,
     if fires (_LED_count t !!! i) (_LED_add t !!! i)
     then toggle (_LED_Pins t !!! i) h else h).
Proof.
  intros Hi. unfold loop_body, next_count, fires, toggle, set_LED_count. simpl.
  rewrite list_lookup_total_insert_eq by exact Hi.
  destruct (8 <=? uint8_t (_LED_count t !!! i + _LED_add t !!! i)).
  - rewrite list_insert_insert_eq. reflexivity.
  - reflexivity.
Qed.

Lemma for_loop_loop_body (t : pinToggler) (h : hardware) (k : nat) :
  (k <= length (_LED_count t))%nat ->
  prefix_of_doLoop t h k (for_loop k loop_body (t, h)).
Proof.
  induction k as [| k IH]; intros Hk.
  - rewrite for_loop_0. split; simpl; try reflexivity. intros j Hj. lia.
  - rewrite for_loop_S.
    assert (Hk' : (k <= length (_LED_count t))%nat) by lia.
    destruct (IH Hk') as [Hn Hp Ha Hl Hd Ht Hh]. clear IH.
    destruct (for_loop k loop_body (t, h)) as [t' h']. cbn [fst snd] in *.
    rewrite loop_body_eq by lia.
    rewrite Hp, Ha, (Ht k) by lia.
    split; simpl; try assumption.
    + rewrite length_insert. exact Hl.
    + intros j Hj. destruct (decide (j = k)) as [-> | Hne].
      * rewrite list_lookup_total_insert_eq by lia. reflexivity.
      * rewrite list_lookup_total_insert_ne by congruence. apply Hd. lia.
    + intros j Hj. rewrite list_lookup_total_insert_ne by lia. apply Ht. lia.
    + unfold toggled_upto. rewrite for_loop_S. fold (toggled_upto t k h).
      rewrite <- Hh. reflexivity.
Qed.

(** ** One run of [doLoop] *)

Lemma doLoop_prefix (t : pinToggler) (h : hardware) :
  shaped t -> prefix_of_doLoop t h (numDerivedPins t) (doLoop (t, h)).
Proof.
  intros (_ & Hc & _). unfold doLoop. cbn [fst].
  apply for_loop_loop_body. lia.
Qed.

Lemma doLoop_shaped (t : pinToggler) (h : hardware) :
  shaped t -> shaped (fst (doLoop (t, h))).
Proof.
  intros Hs. destruct (doLoop_prefix t h Hs) as [Hn Hp Ha Hl _ _ _].
  destruct Hs as (H1 & H2 & H3). unfold shaped.
  rewrite Hn, Hp, Ha, Hl. auto.
Qed.

Lemma doLoop_count (t : pinToggler) (h : hardware) (i : nat) :
  shaped t -> (i < numDerivedPins t)%nat ->
  _LED_count (fst (doLoop (t, h))) !!! i =
    next_count (_LED_count t !!! i) (_LED_add t !!! i).
Proof.
  intros Hs Hi. destruct (doLoop_prefix t h Hs) as [_ _ _ _ Hd _ _].
  apply Hd, Hi.
Qed.

(** What the loop leaves alone, whatever the state. *)
Lemma loop_body_frame (i : nat) (st : pinToggler * hardware) :
  numDerivedPins (fst (loop_body i st)) = numDerivedPins (fst st) /\
  _LED_Pins (fst (loop_body i st)) = _LED_Pins (fst st) /\
  _LED_add (fst (loop_body i st)) = _LED_add (fst st) /\
  pin_mode (snd (loop_body i st)) = pin_mode (snd st) /\
  TCCR1A (snd (loop_body i st)) = TCCR1A (snd st) /\
  TCCR1B (snd (loop_body i st)) = TCCR1B (snd st) /\
  TCNT1 (snd (loop_body i st)) = TCNT1 (snd st) /\
  TIMSK1 (snd (loop_body i st)) = TIMSK1 (snd st) /\
  global_interrupts (snd (loop_body i st)) = global_interrupts (snd st).
Proof.
  destruct st as [t h]. unfold loop_body. cbn [fst snd].
  match goal with |- context [if ?b then _ else _] => destruct b end;
    cbn; repeat split; reflexivity.
Qed.

Lemma for_loop_loop_body_frame (k : nat) (st : pinToggler * hardware) :
  numDerivedPins (fst (for_loop k loop_body st)) = numDerivedPins (fst st) /\
  _LED_Pins (fst (for_loop k loop_body st)) = _LED_Pins (fst st) /\
  _LED_add (fst (for_loop k loop_body st)) = _LED_add (fst st) /\
  pin_mode (snd (for_loop k loop_body st)) = pin_mode (snd st) /\
  TCCR1A (snd (for_loop k loop_body st)) = TCCR1A (snd st) /\
  TCCR1B (snd (for_loop k loop_body st)) = TCCR1B (snd st) /\
  TCNT1 (snd (for_loop k loop_body st)) = TCNT1 (snd st) /\
  TIMSK1 (snd (for_loop k loop_body st)) = TIMSK1 (snd st) /\
  global_interrupts (snd (for_loop k loop_body st)) =
    global_interrupts (snd st).
Proof.
  induction k as [| k IH].
  - rewrite for_loop_0. repeat split; reflexivity.
  - rewrite for_loop_S.
    pose proof (loop_body_frame k (for_loop k loop_body st)) as Hb.
    destruct IH as (I1 & I2 & I3 & I4 & I5 & I6 & I7 & I8 & I9).
    destruct Hb as (B1 & B2 & B3 & B4 & B5 & B6 & B7 & B8 & B9).
    repeat split; congruence.
Qed.

(** ** A slot that is alone on its pin *)

Lemma toggled_upto_sole_driver (t : pinToggler) (i k : nat) (h : hardware) :
  drives_alone t i -> (k <= numDerivedPins t)%nat ->
  digitalRead (_LED_Pins t !!! i) (toggled_upto t k h) =
    if (i <? k)%nat && fires (_LED_count t !!! i) (_LED_add t !!! i)
    then 1 - digitalRead (_LED_Pins t !!! i) h
    else digitalRead (_LED_Pins t !!! i) h.
Proof.
  intros Hsole. induction k as [| k IH]; intros Hk.
  - reflexivity.
  - unfold toggled_upto. rewrite for_loop_S. fold (toggled_upto t k h).
    assert (Hk' : (k <= numDerivedPins t)%nat) by lia.
    specialize (IH Hk').
    destruct (decide (k = i)) as [-> | Hne].
    + rewrite Nat.ltb_irrefl in IH. cbn [andb] in IH.
      replace (i <? S i)%nat with true by (symmetry; apply Nat.ltb_lt; lia).
      cbn [andb].
      destruct (fires (_LED_count t !!! i) (_LED_add t !!! i)).
      * rewrite digitalRead_toggle_eq, IH. reflexivity.
      * exact IH.
    + assert (Hpin : _LED_Pins t !!! k <> _LED_Pins t !!! i)
        by (apply Hsole; [lia | exact Hne]).
      replace (i <? S k)%nat with (i <? k)%nat.
      2:{ destruct (Nat.ltb_spec i k), (Nat.ltb_spec i (S k));
            try reflexivity; lia. }
      destruct (fires (_LED_count t !!! k) (_LED_add t !!! k)).
      * rewrite digitalRead_toggle_ne by exact Hpin. exact IH.
      * exact IH.
Qed.

Lemma doLoop_level_sole_driver (t : pinToggler) (h : hardware) (i : nat) :
  shaped t -> (i < numDerivedPins t)%nat -> drives_alone t i ->
  digitalRead (_LED_Pins t !!! i) (snd (doLoop (t, h))) =
    if fires (_LED_count t !!! i) (_LED_add t !!! i)
    then 1 - digitalRead (_LED_Pins t !!! i) h
    else digitalRead (_LED_Pins t !!! i) h.
Proof.
  intros Hs Hi Hsole.
  destruct (doLoop_prefix t h Hs) as [_ _ _ _ _ _ Hh]. rewrite Hh.
  rewrite toggled_upto_sole_driver by (auto; lia).
  replace (i <? numDerivedPins t)%nat with true
    by (symmetry; apply Nat.ltb_lt; exact Hi).
  reflexivity.
Qed.

(** The hypotheses on a slot survive a run of [doLoop]. *)
Lemma doLoop_slot (t : pinToggler) (h : hardware) (i : nat) :
  shaped t -> (i < numDerivedPins t)%nat -> drives_alone t i ->
  let t' := fst (doLoop (t, h)) in
  shaped t' /\ (i < numDerivedPins t')%nat /\ drives_alone t' i /\
  _LED_Pins t' !!! i = _LED_Pins t !!! i /\
  _LED_add t' !!! i = _LED_add t !!! i /\
  _LED_count t' !!! i = next_count (_LED_count t !!! i) (_LED_add t !!! i).
Proof.
  intros Hs Hi Hsole t'. subst t'.
  pose proof (doLoop_shaped t h Hs) as Hs'.
  pose proof (doLoop_count t h i Hs Hi) as Hc.
  destruct (doLoop_prefix t h Hs) as [Hn Hp Ha _ _ _ _].
  split; [exact Hs' |].
  split; [rewrite Hn; exact Hi |].
  split; [unfold drives_alone; rewrite Hn, Hp; exact Hsole |].
  split; [rewrite Hp; reflexivity |].
  split; [rewrite Ha; reflexivity | exact Hc].
Qed.

Lemma inversions_slot_toggles (n : nat) :
  forall (t : pinToggler) (h : hardware) (i : nat),
  shaped t -> (i < numDerivedPins t)%nat -> drives_alone t i ->
  inversions (_LED_Pins t !!! i) n (t, h) =
    slot_toggles n (_LED_count t !!! i) (_LED_add t !!! i).
Proof.
  induction n as [| n IH]; intros t h i Hs Hi Hsole.
  - reflexivity.
  - cbn [inversions slot_toggles].
    pose proof (doLoop_level_sole_driver t h i Hs Hi Hsole) as Hlvl.
    destruct (doLoop_slot t h i Hs Hi Hsole) as (Hs' & Hi' & Hsole' & Hp & Ha & Hc).
    destruct (doLoop (t, h)) as [t' h'] eqn:Hdo. cbn [fst snd] in *.
    rewrite <- Hp, (IH t' h' i Hs' Hi' Hsole'), Hp, Ha, Hc.
    f_equal. rewrite Hlvl.
    destruct (fires (_LED_count t !!! i) (_LED_add t !!! i)).
    + destruct (digitalRead_cases (_LED_Pins t !!! i) h) as [-> | ->];
        reflexivity.
    + rewrite Z.eqb_refl. reflexivity.
Qed.

Lemma sole_driver_drives_alone (t : pinToggler) (i : nat) :
  sole_driver t i = true -> drives_alone t i.
Proof.
  unfold sole_driver, drives_alone. intros Hall j Hj Hne.
  rewrite forallb_forall in Hall.
  specialize (Hall j). rewrite in_seq in Hall.
  assert (Hin : (0 <= j < 0 + numDerivedPins t)%nat) by lia.
  apply Hall in Hin. apply orb_true_iff in Hin.
  destruct Hin as [Heq | Hpin].
  - apply Nat.eqb_eq in Heq. contradiction.
  - apply negb_true_iff, Z.eqb_neq in Hpin. exact Hpin.
Qed.

Lemma ticks_S (k : nat) (st : pinToggler * hardware) :
  ticks (S k) st = doLoop (ticks k st).
Proof. reflexivity. Qed.

(** A slot whose counter does not move keeps it over any number of ticks. *)
Lemma ticks_slot_fixed (k : nat) (t : pinToggler) (h : hardware) (i : nat) :
  shaped t -> (i < numDerivedPins t)%nat -> drives_alone t i ->
  next_count (_LED_count t !!! i) (_LED_add t !!! i) = _LED_count t !!! i ->
  let t' := fst (ticks k (t, h)) in
  shaped t' /\ (i < numDerivedPins t')%nat /\ drives_alone t' i /\
  _LED_Pins t' !!! i = _LED_Pins t !!! i /\
  _LED_add t' !!! i = _LED_add t !!! i /\
  _LED_count t' !!! i = _LED_count t !!! i.
Proof.
  intros Hs Hi Hsole Hfix. induction k as [| k IH].
  - cbn. auto 10.
  - cbn zeta in IH. destruct IH as (Hs' & Hi' & Hsole' & Hp & Ha & Hc).
    rewrite ticks_S.
    destruct (ticks k (t, h)) as [t' h']. cbn [fst] in *.
    destruct (doLoop_slot t' h' i Hs' Hi' Hsole') as (S1 & S2 & S3 & S4 & S5 & S6).
    cbn zeta. split; [exact S1 |]. split; [exact S2 |]. split; [exact S3 |].
    split; [congruence |]. split; [congruence |].
    rewrite S6, Hc, Ha. exact Hfix.
Qed.

(** ** C1: toggles per eight ticks *)

(** C1, as amended.  A slot that is alone on its pin, whose counter starts at 0
    and whose increment is the value of [rate], changes the level of its pin
    exactly [rate] times in 8 consecutive runs of [doLoop], whatever the other
    slots do.  With [MAX] every run changes the level; with [OFF] no run does,
    so the pin keeps the level it had (LOW after [init]). *)
Theorem toggles_per_eight_ticks
    (t : pinToggler) (h : hardware) (i : nat) (rate : FLASHRATE) :
  shaped t -> (i < numDerivedPins t)%nat -> sole_driver t i = true ->
  _LED_count t !!! i = 0 ->
  _LED_add t !!! i = FLASHRATE_value rate ->
  inversions (_LED_Pins t !!! i) 8 (t, h) = Z.to_nat (FLASHRATE_value rate) /\
  (rate = MAX -> forall k : nat,
     digitalRead (_LED_Pins t !!! i) (snd (ticks (S k) (t, h))) <>
     digitalRead (_LED_Pins t !!! i) (snd (ticks k (t, h)))) /\
  (rate = OFF -> forall k : nat,
     digitalRead (_LED_Pins t !!! i) (snd (ticks k (t, h))) =
     digitalRead (_LED_Pins t !!! i) h).
Proof.
  intros Hs Hi Hsole Hc Ha.
  apply sole_driver_drives_alone in Hsole.
  split; [| split].
  - rewrite inversions_slot_toggles by assumption.
    rewrite Hc, Ha. destruct rate; reflexivity.
  - intros -> k.
    assert (Hfix : next_count (_LED_count t !!! i) (_LED_add t !!! i) =
                   _LED_count t !!! i) by (rewrite Hc, Ha; reflexivity).
    destruct (ticks_slot_fixed k t h i Hs Hi Hsole Hfix)
      as (Hs' & Hi' & Hsole' & Hp & Ha' & Hc').
    rewrite ticks_S.
    destruct (ticks k (t, h)) as [t' h']. cbn [fst snd] in *.
    rewrite <- Hp, doLoop_level_sole_driver by assumption.
    rewrite Hc', Ha', Hc, Ha. cbn [FLASHRATE_value].
    change (fires 0 8) with true. cbn iota.
    destruct (digitalRead_cases (_LED_Pins t' !!! i) h') as [-> | ->];
      discriminate.
  - intros -> k.
    assert (Hfix : next_count (_LED_count t !!! i) (_LED_add t !!! i) =
                   _LED_count t !!! i) by (rewrite Hc, Ha; reflexivity).
    induction k as [| k IH]; [reflexivity |].
    destruct (ticks_slot_fixed k t h i Hs Hi Hsole Hfix)
      as (Hs' & Hi' & Hsole' & Hp & Ha' & Hc').
    rewrite ticks_S.
    destruct (ticks k (t, h)) as [t' h']. cbn [fst snd] in *.
    rewrite <- Hp, doLoop_level_sole_driver by assumption.
    rewrite Hc', Ha', Hc, Ha. cbn [FLASHRATE_value].
    change (fires 0 0) with false. cbn iota.
    rewrite Hp. exact IH.
Qed.

Lemma toggles_per_eight_ticks_witness :
  shaped three_pins /\ sole_driver three_pins 1 = true /\
  inversions 18 8 (three_pins, blank_board) = 2%nat.
Proof.
  assert (Hs : shaped three_pins) by (repeat split; reflexivity).
  assert (Hi : (1 < numDerivedPins three_pins)%nat) by (simpl; lia).
  split; [exact Hs |]. split; [reflexivity |].
  exact (proj1 (toggles_per_eight_ticks three_pins blank_board 1 MEDIUM
                  Hs Hi eq_refl eq_refl eq_refl)).
Defined.

(** C1 as it is written fails when a pin number occurs twice in the array given
    to [init].  After [init({13, 13})] and [setFlashRate(0, MAX)], slot 1 has
    counter 0 and rate [OFF], its pin is LOW, and yet the pin changes level in
    each of the next 8 ticks and is HIGH after the first one: slot 0 drives
    the same pin. *)
Lemma shared_pin_counterexample :
  _instance shared_pin_system = Some shared_pin /\
  shaped shared_pin /\
  _LED_count shared_pin !!! 1%nat = 0 /\
  _LED_add shared_pin !!! 1%nat = FLASHRATE_value OFF /\
  digitalRead (_LED_Pins shared_pin !!! 1%nat) (hw shared_pin_system) = LOW /\
  inversions (_LED_Pins shared_pin !!! 1%nat) 8
             (shared_pin, hw shared_pin_system) = 8%nat /\
  8%nat <> Z.to_nat (FLASHRATE_value OFF) /\
  digitalRead (_LED_Pins shared_pin !!! 1%nat)
              (snd (ticks 1 (shared_pin, hw shared_pin_system))) = HIGH.
Proof.
  repeat split; try reflexivity. vm_compute. discriminate.
Qed.

(** ** [setupSingleton] and [init] *)

Lemma setup_body_pins (LED_Pins : list Z) (k : nat)
    (t : pinToggler) (h : hardware) :
  (k <= length (_LED_Pins t))%nat ->
  let st := for_loop k (setup_body LED_Pins) (t, h) in
  numDerivedPins (fst st) = numDerivedPins t /\
  _LED_count (fst st) = _LED_count t /\
  _LED_add (fst st) = _LED_add t /\
  length (_LED_Pins (fst st)) = length (_LED_Pins t) /\
  forall j : nat, (j < k)%nat ->
    _LED_Pins (fst st) !!! j = LED_Pins !!! j /\
    pin_mode (snd st) !! (LED_Pins !!! j) = Some OUTPUT /\
    pin_level (snd st) !! (LED_Pins !!! j) = Some false.
Proof.
  induction k as [| k IH]; intros Hk; cbn zeta.
  - rewrite for_loop_0. cbn. repeat split; try reflexivity; lia.
  - rewrite for_loop_S.
    assert (Hk' : (k <= length (_LED_Pins t))%nat) by lia.
    destruct (IH Hk') as (Hn & Hc & Ha & Hl & Hj). clear IH.
    destruct (for_loop k (setup_body LED_Pins) (t, h)) as [t' h'].
    cbn [fst snd] in *. unfold setup_body. cbn.
    rewrite length_insert.
    split; [exact Hn |]. split; [exact Hc |]. split; [exact Ha |].
    split; [exact Hl |].
    intros j Hlt. destruct (decide (j = k)) as [-> | Hne].
    + rewrite list_lookup_total_insert_eq by lia.
      rewrite !lookup_insert_eq. auto.
    + rewrite list_lookup_total_insert_ne by congruence.
      destruct (Hj j) as (Hp & Hm & Hv); [lia |].
      split; [exact Hp |].
      destruct (decide (LED_Pins !!! k = LED_Pins !!! j)) as [Heq | Hpin].
      * rewrite Heq, !lookup_insert_eq. auto.
      * rewrite !lookup_insert_ne by exact Hpin. auto.
Qed.

Lemma new_pinToggler_shaped (numPins : nat) : shaped (new_pinToggler numPins).
Proof. unfold shaped, new_pinToggler. cbn. rewrite !length_replicate. auto. Qed.

(** The object and the board that [init] leaves behind. *)
Lemma setupSingleton_new `{avr_io} (numPins : nat) (LED_Pins : list Z)
    (h : hardware) :
  let st := setupSingleton LED_Pins (new_pinToggler numPins, h) in
  numDerivedPins (fst st) = numPins /\
  _LED_count (fst st) = replicate numPins 0 /\
  _LED_add (fst st) = replicate numPins 0 /\
  length (_LED_Pins (fst st)) = numPins /\
  forall j : nat, (j < numPins)%nat ->
    _LED_Pins (fst st) !!! j = LED_Pins !!! j /\
    pin_mode (snd st) !! (LED_Pins !!! j) = Some OUTPUT /\
    pin_level (snd st) !! (LED_Pins !!! j) = Some false.
Proof.
  cbn zeta. unfold setupSingleton. cbn [fst].
  pose proof (setup_body_pins LED_Pins numPins (new_pinToggler numPins) h)
    as Hsetup.
  cbn zeta in Hsetup.
  replace (numDerivedPins (new_pinToggler numPins)) with numPins
    by reflexivity.
  destruct (for_loop numPins (setup_body LED_Pins)
              (new_pinToggler numPins, h)) as [t' h'].
  cbn [fst snd] in *.
  destruct Hsetup as (Hn & Hc & Ha & Hl & Hj).
  { cbn. rewrite length_replicate. lia. }
  cbn in Hl. rewrite length_replicate in Hl.
  split; [exact Hn |]. split; [exact Hc |]. split; [exact Ha |].
  split; [exact Hl |]. exact Hj.
Qed.

Lemma init_valid `{avr_io} (numPins : nat) (LED_Pins : list Z) (s : system)
    (t : pinToggler) :
  _instance s = None ->
  _instance (snd (init numPins LED_Pins s)) = Some t -> valid t.
Proof.
  intros Hnone. unfold init. rewrite Hnone.
  pose proof (setupSingleton_new numPins LED_Pins (hw s)) as Hsetup.
  cbn zeta in Hsetup.
  destruct (setupSingleton LED_Pins (new_pinToggler numPins, hw s))
    as [t' h'].
  cbn [fst snd] in *. intros [= <-].
  destruct Hsetup as (Hn & Hc & Ha & Hl & _).
  unfold valid, shaped. rewrite Hn, Hc, Ha, Hl, !length_replicate.
  repeat split; try reflexivity.
  - apply Forall_replicate. lia.
  - apply Forall_replicate. unfold rate_values. apply elem_of_cons. auto.
Qed.

(** ** The invariant of the interface *)

Lemma doLoop_valid (t : pinToggler) (h : hardware) :
  valid t -> valid (fst (doLoop (t, h))).
Proof.
  intros (Hs & Hc & Ha).
  pose proof (doLoop_shaped t h Hs) as Hs'.
  destruct (doLoop_prefix t h Hs) as [Hn Hp Hadd Hl Hd _ _].
  split; [exact Hs' |]. split.
  - rewrite Forall_lookup_total. intros i Hi.
    rewrite Hd; [apply next_count_range |].
    destruct Hs as (_ & Hlc & _). lia.
  - rewrite Hadd. exact Ha.
Qed.

Lemma setFlashRate_valid (numPins LED : nat) (rate : FLASHRATE) (s : system)
    (t t' : pinToggler) :
  _instance s = Some t -> valid t ->
  _instance (snd (setFlashRate numPins LED rate s)) = Some t' -> valid t'.
Proof.
  intros Hinst Hv. unfold setFlashRate. rewrite Hinst.
  destruct (negb (numDerivedPins t =? numPins)%nat);
    [cbn; rewrite Hinst; intros [= <-]; exact Hv |].
  destruct (numPins <=? LED)%nat;
    [cbn; rewrite Hinst; intros [= <-]; exact Hv |].
  cbn. intros [= <-].
  destruct Hv as ((H1 & H2 & H3) & Hc & Ha).
  unfold valid, shaped. cbn. rewrite length_insert.
  repeat split; try assumption.
  apply Forall_insert; [exact Ha | apply FLASHRATE_value_rate_values].
Qed.

Lemma exec_valid `{avr_io} (c : call) (s s' : system) :
  system_valid s -> exec c s = Some s' -> system_valid s'.
Proof.
  intros Hv. destruct c as [numPins LED_Pins | numPins LED rate |]; cbn.
  - destruct (_instance s) as [t0 |] eqn:Hinst.
    + intros [= <-] t Ht.
      unfold init in Ht. rewrite Hinst in Ht. cbn in Ht.
      apply Hv. congruence.
    + destruct (numPins <=? length LED_Pins)%nat; [| discriminate].
      intros [= <-] t Ht. eapply init_valid; eassumption.
  - intros [= <-] t Ht.
    destruct (_instance s) as [t0 |] eqn:Hinst.
    + eapply setFlashRate_valid; [exact Hinst | apply Hv, Hinst | exact Ht].
    + unfold setFlashRate in Ht. rewrite Hinst in Ht. cbn in Ht. congruence.
  - unfold TIMER1_OVF_vect.
    destruct (_instance s) as [t0 |] eqn:Hinst; [| discriminate].
    pose proof (doLoop_valid t0 (set_TCNT1 (uint16_t timer1_counter) (hw s))
                  (Hv t0 Hinst)) as Hv'.
    destruct (doLoop (t0, set_TCNT1 (uint16_t timer1_counter) (hw s)))
      as [t1 h1].
    intros [= <-] t Ht. cbn in Ht. injection Ht as <-. exact Hv'.
Qed.

Lemma run_valid `{avr_io} (cs : list call) :
  forall s s' : system,
  system_valid s -> run cs s = Some s' -> system_valid s'.
Proof.
  induction cs as [| c cs IH]; intros s s' Hv; cbn.
  - intros [= <-]. exact Hv.
  - destruct (exec c s) as [s1 |] eqn:Hexec; [| discriminate].
    apply IH. eapply exec_valid; eassumption.
Qed.

Lemma boot_valid (h : hardware) : system_valid (boot h).
Proof. intros t Ht. discriminate. Qed.

(** Every object the interface can produce from reset is valid. *)
Lemma reachable_valid `{avr_io} (cs : list call) (h0 : hardware)
    (s : system) (t : pinToggler) :
  run cs (boot h0) = Some s -> _instance s = Some t -> valid t.
Proof.
  intros Hrun Hinst.
  exact (run_valid cs (boot h0) s (boot_valid h0) Hrun t Hinst).
Qed.

(** ** C2: what one run of [doLoop] does *)

Lemma loop_body_step_slot (i : nat) (t : pinToggler) (h : hardware) :
  (i < length (_LED_count t))%nat ->
  0 <= _LED_count t !!! i + _LED_add t !!! i < 256 ->
  loop_body i (t, h) = step_slot i (t, h).
Proof.
  intros Hi Hsum. rewrite loop_body_eq by exact Hi.
  unfold step_slot, next_count, fires, PHASE_MAX.
  rewrite uint8_t_small by exact Hsum.
  destruct (8 <=? _LED_count t !!! i + _LED_add t !!! i).
  - rewrite toggle_invert_level. reflexivity.
  - reflexivity.
Qed.

Lemma valid_bounded (t : pinToggler) : valid t -> bounded t.
Proof.
  intros (Hs & Hc & Ha). split; [exact Hs |]. split; [exact Hc |].
  eapply Forall_impl; [exact Ha |]. intros a. apply rate_values_bound.
Qed.

Lemma bounded_sum (t : pinToggler) (i : nat) :
  bounded t -> (i < numDerivedPins t)%nat ->
  0 <= _LED_count t !!! i < 8 /\ 0 <= _LED_add t !!! i <= 8.
Proof.
  intros ((_ & Hlc & Hla) & Hc & Ha) Hi. split.
  - apply (Forall_lookup_total_1 _ _ i Hc). lia.
  - apply (Forall_lookup_total_1 _ _ i Ha). lia.
Qed.

Lemma for_loop_step_slot (t : pinToggler) (h : hardware) (k : nat) :
  bounded t -> (k <= numDerivedPins t)%nat ->
  for_loop k loop_body (t, h) = for_loop k step_slot (t, h).
Proof.
  intros Hv. induction k as [| k IH]; intros Hk; [reflexivity |].
  rewrite !for_loop_S, <- IH by lia.
  assert (Hlen : length (_LED_count t) = numDerivedPins t)
    by (destruct Hv as ((_ & Hlc & _) & _); exact Hlc).
  destruct (for_loop_loop_body t h k) as [_ _ Ha Hl _ Ht _]; [lia |].
  destruct (for_loop k loop_body (t, h)) as [t' h']. cbn [fst snd] in *.
  apply loop_body_step_slot; [lia |].
  rewrite Ha, (Ht k) by lia.
  destruct (bounded_sum t k Hv) as (Hc & Hadd); lia.
Qed.

Lemma doLoop_step (t : pinToggler) (h : hardware) :
  bounded t -> doLoop (t, h) = step (t, h).
Proof.
  intros Hv. unfold doLoop, step. cbn [fst].
  apply for_loop_step_slot; [exact Hv | lia].
Qed.

Lemma doLoop_bounded (t : pinToggler) (h : hardware) :
  bounded t -> bounded (fst (doLoop (t, h))).
Proof.
  intros (Hs & Hc & Ha).
  pose proof (doLoop_shaped t h Hs) as Hs'.
  destruct (doLoop_prefix t h Hs) as [Hn Hp Hadd Hl Hd _ _].
  split; [exact Hs' |]. split.
  - rewrite Forall_lookup_total. intros i Hi.
    rewrite Hd; [apply next_count_range |].
    destruct Hs as (_ & Hlc & _). lia.
  - rewrite Hadd. exact Ha.
Qed.

Lemma ticks_bounded (k : nat) (t : pinToggler) (h : hardware) :
  bounded t -> bounded (fst (ticks k (t, h))).
Proof.
  intros Hb. induction k as [| k IH]; [exact Hb |].
  rewrite ticks_S. destruct (ticks k (t, h)) as [t' h'].
  apply doLoop_bounded, IH.
Qed.

(** C2.  In every state that the interface can reach from reset, one run of
    [doLoop] is the step of the specification: slot after slot, the counter
    becomes the sum of counter and increment; when that sum is at least 8 the
    counter is reset to 0 and the level of the pin is read and its complement
    written; otherwise the counter keeps the sum and the board is left as it
    is.  In particular, slot [i] ends the run with counter 0 or with the
    sum. *)
Theorem doLoop_performs_step `{avr_io} (cs : list call) (h0 : hardware)
    (s : system) (t : pinToggler) (h : hardware) :
  run cs (boot h0) = Some s -> _instance s = Some t ->
  doLoop (t, h) = step (t, h) /\
  forall i : nat, (i < numDerivedPins t)%nat ->
    let phase := _LED_count t !!! i + _LED_add t !!! i in
    _LED_count (fst (doLoop (t, h))) !!! i =
      (if PHASE_MAX <=? phase then 0 else phase) /\
    (sole_driver t i = true ->
     digitalRead (_LED_Pins t !!! i) (snd (doLoop (t, h))) =
       if PHASE_MAX <=? phase
       then 1 - digitalRead (_LED_Pins t !!! i) h
       else digitalRead (_LED_Pins t !!! i) h).
Proof.
  intros Hrun Hinst.
  pose proof (reachable_valid cs h0 s t Hrun Hinst) as Hv.
  split; [apply doLoop_step, valid_bounded, Hv |].
  intros i Hi phase. subst phase.
  destruct (bounded_sum t i (valid_bounded t Hv) Hi) as (Hc & Ha).
  assert (Hs : shaped t) by (destruct Hv as (Hs & _); exact Hs).
  assert (Hfires : fires (_LED_count t !!! i) (_LED_add t !!! i) =
                   (PHASE_MAX <=? _LED_count t !!! i + _LED_add t !!! i)).
  { unfold fires, PHASE_MAX. rewrite uint8_t_small by lia. reflexivity. }
  split.
  - rewrite doLoop_count by assumption.
    unfold next_count. rewrite Hfires.
    rewrite uint8_t_small by lia. reflexivity.
  - intros Hsole. apply sole_driver_drives_alone in Hsole.
    rewrite doLoop_level_sole_driver by assumption.
    rewrite Hfires. reflexivity.
Qed.

Lemma doLoop_performs_step_witness :
  run (H := atmega328p) three_pins_calls (boot blank_board) =
    Some three_pins_system /\
  _instance three_pins_system = Some three_pins /\
  doLoop (three_pins, blank_board) = step (three_pins, blank_board).
Proof.
  assert (Hrun : run (H := atmega328p) three_pins_calls (boot blank_board) =
                 Some three_pins_system) by (vm_compute; reflexivity).
  split; [exact Hrun |]. split; [reflexivity |].
  exact (proj1 (doLoop_performs_step (H := atmega328p) three_pins_calls
                  blank_board three_pins_system three_pins blank_board
                  Hrun eq_refl)).
Defined.

(** ** C3: the result of [init] *)

(** C3.  A call of [init] that finds an object returns -1 and changes
    nothing, so that only the first call is honoured.  The call that finds
    none installs an object, and reaches the end of the function without a
    [return]: it yields no result code. *)
Theorem init_result_code `{avr_io} (numPins : nat) (LED_Pins : list Z)
    (s : system) :
  match _instance s with
  | Some _ => init numPins LED_Pins s = (Some (-1), s)
  | None =>
      fst (init numPins LED_Pins s) = None /\
      is_Some (_instance (snd (init numPins LED_Pins s))) /\
      forall (numPins' : nat) (LED_Pins' : list Z),
        init numPins' LED_Pins' (snd (init numPins LED_Pins s)) =
          (Some (-1), snd (init numPins LED_Pins s))
  end.
Proof.
  destruct (_instance s) as [t |] eqn:Hinst.
  - unfold init. rewrite Hinst. reflexivity.
  - unfold init at 1 2 4. rewrite Hinst.
    destruct (setupSingleton LED_Pins (new_pinToggler numPins, hw s))
      as [t' h'] eqn:Hsetup.
    cbn [fst snd]. split; [reflexivity |]. split; [eexists; reflexivity |].
    intros numPins' LED_Pins'. unfold init. rewrite Hinst, Hsetup.
    reflexivity.
Qed.

(** The first call of a program, [pinToggler<3>::init({13, 18, 19})]. *)
Example init_first_call :
  fst (init (H := atmega328p) 3 [13; 18; 19] (boot blank_board)) = None.
Proof. reflexivity. Qed.

(** ** C4 and C10: the result of [setFlashRate] *)

(** C4.  [setFlashRate] returns -1 when there is no object, -2 when the object
    was built for another number of pins, -3 when the index is not below the
    number of pins, and 0 otherwise; whenever the result is not 0 the system,
    and so every pin number, counter and increment, is left as it was. *)
Theorem setFlashRate_result_code (numPins LED : nat) (rate : FLASHRATE)
    (s : system) :
  let r := fst (setFlashRate numPins LED rate s) in
  let s' := snd (setFlashRate numPins LED rate s) in
  (_instance s = None -> r = -1) /\
  (forall t, _instance s = Some t -> numDerivedPins t <> numPins -> r = -2) /\
  (forall t, _instance s = Some t -> numDerivedPins t = numPins ->
     (numPins <= LED)%nat -> r = -3) /\
  (forall t, _instance s = Some t -> numDerivedPins t = numPins ->
     (LED < numPins)%nat -> r = 0) /\
  (r <> 0 -> s' = s).
Proof.
  cbn zeta. unfold setFlashRate.
  destruct (_instance s) as [t |] eqn:Hinst.
  - destruct (Nat.eqb_spec (numDerivedPins t) numPins) as [Heq | Hne];
      cbn [negb].
    + destruct (Nat.leb_spec numPins LED) as [Hge | Hlt]; cbn [fst snd].
      * repeat split; try discriminate; try reflexivity.
        -- intros t0 [= <-] Hne. contradiction.
        -- intros t0 _ _ Hlt. lia.
      * repeat split; try discriminate; try reflexivity.
        -- intros t0 [= <-] Hne. contradiction.
        -- intros t0 _ _ Hge. lia.
        -- intros Hr. contradiction.
    + cbn [fst snd]. repeat split; try discriminate; try reflexivity.
      * intros t0 [= <-] Heq. contradiction.
      * intros t0 [= <-] Heq. contradiction.
  - cbn [fst snd]. repeat split; try discriminate; reflexivity.
Qed.

(** C10.  The checks of [setFlashRate] are made in a fixed order: without an
    object the result is -1 whatever the number of pins and the index; with
    an object of another shape it is -2 whatever the index; and it is -3
    exactly when there is an object, its shape is the caller's, and the index
    is not below the number of pins. *)
Theorem setFlashRate_check_order (numPins LED : nat) (rate : FLASHRATE)
    (s : system) :
  let r := fst (setFlashRate numPins LED rate s) in
  (_instance s = None -> r = -1) /\
  (forall t, _instance s = Some t -> numDerivedPins t <> numPins -> r = -2) /\
  (r = -3 <->
   exists t, _instance s = Some t /\ numDerivedPins t = numPins /\
             (numPins <= LED)%nat).
Proof.
  cbn zeta. unfold setFlashRate.
  destruct (_instance s) as [t |] eqn:Hinst.
  - destruct (Nat.eqb_spec (numDerivedPins t) numPins) as [Heq | Hne];
      cbn [negb].
    + destruct (Nat.leb_spec numPins LED) as [Hge | Hlt]; cbn [fst snd].
      * split; [discriminate |]. split.
        -- intros t0 [= <-] Hne. contradiction.
        -- split; [intros _; exists t; auto | reflexivity].
      * split; [discriminate |]. split.
        -- intros t0 [= <-] Hne. contradiction.
        -- split; [discriminate |]. intros (t0 & _ & _ & Hge). lia.
    + cbn [fst snd]. split; [discriminate |]. split; [reflexivity |].
      split; [discriminate |].
      intros (t0 & [= <-] & Heq & _). contradiction.
  - cbn [fst snd]. split; [reflexivity |]. split; [discriminate |].
    split; [discriminate |]. intros (t0 & Ht0 & _). discriminate.
Qed.

(** Several conditions at once: no object, a pin count of 0 and index 7. *)
Example setFlashRate_no_object :
  fst (setFlashRate 0 7 FAST (boot blank_board)) = -1.
Proof. reflexivity. Qed.

(** An object for 3 pins, asked as [pinToggler<2>] for index 5. *)
Example setFlashRate_other_shape :
  fst (setFlashRate 2 5 FAST three_pins_system) = -2.
Proof. reflexivity. Qed.

Example setFlashRate_index :
  fst (setFlashRate 3 3 FAST three_pins_system) = -3.
Proof. reflexivity. Qed.

(** ** C8: [setFlashRate] twice *)

(** C8.  A second [setFlashRate] with the same arguments returns what the
    first returned and leaves the system as the first left it; neither call
    touches a counter, so the ticks that follow toggle the same pins. *)
Theorem setFlashRate_idempotent (numPins LED : nat) (rate : FLASHRATE)
    (s : system) :
  setFlashRate numPins LED rate (snd (setFlashRate numPins LED rate s)) =
    setFlashRate numPins LED rate s /\
  (forall t t' : pinToggler,
     _instance s = Some t ->
     _instance (snd (setFlashRate numPins LED rate s)) = Some t' ->
     _LED_count t' = _LED_count t) /\
  (forall (n : nat) (t1 t2 : pinToggler),
     _instance (snd (setFlashRate numPins LED rate s)) = Some t1 ->
     _instance (snd (setFlashRate numPins LED rate
                       (snd (setFlashRate numPins LED rate s)))) = Some t2 ->
     ticks n (t2, hw (snd (setFlashRate numPins LED rate
                             (snd (setFlashRate numPins LED rate s))))) =
     ticks n (t1, hw (snd (setFlashRate numPins LED rate s)))).
Proof.
  assert (Hidem :
    setFlashRate numPins LED rate (snd (setFlashRate numPins LED rate s)) =
    setFlashRate numPins LED rate s).
  { unfold setFlashRate.
    destruct (_instance s) as [t |] eqn:Hinst; cbn [snd]; [| rewrite Hinst; reflexivity].
    destruct (negb (numDerivedPins t =? numPins)%nat) eqn:Hshape; cbn [snd].
    { rewrite Hinst, Hshape. reflexivity. }
    destruct (numPins <=? LED)%nat eqn:Hidx; cbn [snd].
    { rewrite Hinst, Hshape. reflexivity. }
    cbn [snd _instance numDerivedPins set_LED_add _LED_add hw].
    rewrite Hshape, list_insert_insert_eq. reflexivity. }
  split; [exact Hidem |]. split.
  - intros t t' Hinst. unfold setFlashRate. rewrite Hinst.
    destruct (negb (numDerivedPins t =? numPins)%nat);
      [cbn; rewrite Hinst; intros [= <-]; reflexivity |].
    destruct (numPins <=? LED)%nat;
      [cbn; rewrite Hinst; intros [= <-]; reflexivity |].
    cbn. intros [= <-]. reflexivity.
  - intros n t1 t2. rewrite Hidem. intros H1 H2.
    rewrite H1 in H2. injection H2 as <-. reflexivity.
Qed.

(** ** C6: the state after [init] *)

(** C6.  When [init] finds no object and the caller's array holds [numPins]
    pin numbers, the object it installs stores in slot [i] the pin number
    [LED_Pins[i]], that pin is an output and reads LOW, and the counter and
    the increment of the slot are 0, for every [i] below [numPins]. *)
Theorem init_configures_pins `{avr_io} (numPins : nat) (LED_Pins : list Z)
    (s : system) :
  _instance s = None -> (numPins <= length LED_Pins)%nat ->
  exists t : pinToggler,
    _instance (snd (init numPins LED_Pins s)) = Some t /\
    numDerivedPins t = numPins /\
    forall i : nat, (i < numPins)%nat ->
      exists pin : Z,
        LED_Pins !! i = Some pin /\
        _LED_Pins t !! i = Some pin /\
        pin_mode (hw (snd (init numPins LED_Pins s))) !! pin = Some OUTPUT /\
        digitalRead pin (hw (snd (init numPins LED_Pins s))) = LOW /\
        _LED_count t !! i = Some 0 /\
        _LED_add t !! i = Some 0.
Proof.
  intros Hnone Hlen. unfold init. rewrite Hnone.
  pose proof (setupSingleton_new numPins LED_Pins (hw s)) as Hsetup.
  cbn zeta in Hsetup.
  destruct (setupSingleton LED_Pins (new_pinToggler numPins, hw s))
    as [t h'].
  cbn [fst snd _instance hw] in *.
  destruct Hsetup as (Hn & Hc & Ha & Hl & Hj).
  exists t. split; [reflexivity |]. split; [exact Hn |].
  intros i Hi. destruct (Hj i Hi) as (Hp & Hm & Hv).
  exists (LED_Pins !!! i).
  split; [apply list_lookup_lookup_total_lt; lia |].
  split; [rewrite <- Hp; apply list_lookup_lookup_total_lt; lia |].
  split; [exact Hm |].
  split; [unfold digitalRead; rewrite Hv; reflexivity |].
  rewrite Hc, Ha. split; apply lookup_replicate_2, Hi.
Qed.

Lemma init_configures_pins_witness :
  _instance (boot blank_board) = None /\
  (3 <= length [13; 18; 19])%nat /\
  exists t : pinToggler,
    _instance
      (snd (init (H := atmega328p) 3 [13; 18; 19] (boot blank_board))) =
      Some t /\
    numDerivedPins t = 3%nat.
Proof.
  split; [reflexivity |]. split; [simpl; lia |].
  destruct (init_configures_pins (H := atmega328p) 3 [13; 18; 19]
              (boot blank_board) eq_refl ltac:(simpl; lia))
    as (t & Ht & Hn & _).
  exists t. split; [exact Ht | exact Hn].
Defined.

(** ** C7: what each operation leaves alone *)

(** C7.  In a state the interface can reach, a [setFlashRate] that returns 0
    stores the value of [rate] in the increment of slot [LED] and changes
    nothing else: the other increments, the counters, the pin numbers and the
    board are as before.  A run of [doLoop], from any state, changes neither
    an increment nor a pin number, and on the board nothing but pin
    levels. *)
Theorem setFlashRate_doLoop_frame `{avr_io} (cs : list call) (h0 : hardware)
    (s : system) (numPins LED : nat) (rate : FLASHRATE) :
  run cs (boot h0) = Some s ->
  fst (setFlashRate numPins LED rate s) = 0 ->
  (exists t t' : pinToggler,
     _instance s = Some t /\
     _instance (snd (setFlashRate numPins LED rate s)) = Some t' /\
     hw (snd (setFlashRate numPins LED rate s)) = hw s /\
     numDerivedPins t' = numDerivedPins t /\
     _LED_Pins t' = _LED_Pins t /\
     _LED_count t' = _LED_count t /\
     _LED_add t' !! LED = Some (FLASHRATE_value rate) /\
     forall j : nat, j <> LED -> _LED_add t' !! j = _LED_add t !! j) /\
  (forall (t : pinToggler) (h : hardware),
     numDerivedPins (fst (doLoop (t, h))) = numDerivedPins t /\
     _LED_Pins (fst (doLoop (t, h))) = _LED_Pins t /\
     _LED_add (fst (doLoop (t, h))) = _LED_add t /\
     pin_mode (snd (doLoop (t, h))) = pin_mode h /\
     TCCR1A (snd (doLoop (t, h))) = TCCR1A h /\
     TCCR1B (snd (doLoop (t, h))) = TCCR1B h /\
     TCNT1 (snd (doLoop (t, h))) = TCNT1 h /\
     TIMSK1 (snd (doLoop (t, h))) = TIMSK1 h /\
     global_interrupts (snd (doLoop (t, h))) = global_interrupts h).
Proof.
  intros Hrun Hr. split.
  - unfold setFlashRate in *.
    destruct (_instance s) as [t |] eqn:Hinst; [| discriminate].
    pose proof (reachable_valid cs h0 s t Hrun Hinst) as ((_ & _ & Hla) & _).
    destruct (Nat.eqb_spec (numDerivedPins t) numPins) as [Heq | Hne];
      cbn [negb] in *; [| discriminate].
    destruct (Nat.leb_spec numPins LED) as [Hge | Hlt]; [discriminate |].
    cbn [fst snd _instance hw] in *.
    eexists t, _. split; [reflexivity |]. split; [reflexivity |].
    cbn. repeat split.
    + rewrite list_lookup_insert_eq by lia.
      destruct rate; reflexivity.
    + intros j Hj. apply list_lookup_insert_ne. congruence.
  - intros t h. unfold doLoop. cbn [fst].
    exact (for_loop_loop_body_frame (numDerivedPins t) (t, h)).
Qed.

Lemma setFlashRate_doLoop_frame_witness :
  run (H := atmega328p) three_pins_calls (boot blank_board) =
    Some three_pins_system /\
  fst (setFlashRate 3 0 MAX three_pins_system) = 0 /\
  exists t t' : pinToggler,
    _instance three_pins_system = Some t /\
    _instance (snd (setFlashRate 3 0 MAX three_pins_system)) = Some t' /\
    _LED_count t' = _LED_count t.
Proof.
  assert (Hrun : run (H := atmega328p) three_pins_calls (boot blank_board) =
                 Some three_pins_system) by (vm_compute; reflexivity).
  split; [exact Hrun |]. split; [reflexivity |].
  destruct (proj1 (setFlashRate_doLoop_frame (H := atmega328p)
                     three_pins_calls blank_board three_pins_system
                     3 0 MAX Hrun eq_refl))
    as (t & t' & Ht & Ht' & _ & _ & _ & Hc & _).
  exists t, t'. auto.
Defined.

(** ** C5: counters stay below 8 *)

(** C5.  From an object whose counters are all 0 and whose increments are
    enumerator values, any sequence of interrupts and [setFlashRate] calls
    (and further [init] calls, which are refused) leads to an object whose
    counters are all below 8. *)
Theorem phase_stays_below_PHASE_MAX `{avr_io} (cs : list call)
    (s s' : system) (t t' : pinToggler) :
  _instance s = Some t -> shaped t ->
  _LED_count t = replicate (numDerivedPins t) 0 ->
  Forall (fun a => a ∈ rate_values) (_LED_add t) ->
  run cs s = Some s' -> _instance s' = Some t' ->
  Forall (fun c => 0 <= c < PHASE_MAX) (_LED_count t').
Proof.
  intros Hinst Hs Hc Ha Hrun Hinst'.
  assert (Hv : system_valid s).
  { intros t0 Ht0. rewrite Hinst in Ht0. injection Ht0 as <-.
    split; [exact Hs |]. split; [| exact Ha].
    rewrite Hc. apply Forall_replicate. lia. }
  destruct (run_valid cs s s' Hv Hrun t' Hinst') as (_ & Hc' & _).
  exact Hc'.
Qed.

Lemma phase_stays_below_PHASE_MAX_witness :
  run (H := atmega328p) later_calls three_pins_system =
    Some three_pins_later_system /\
  _instance three_pins_later_system = Some three_pins_later /\
  Forall (fun c => 0 <= c < PHASE_MAX) (_LED_count three_pins_later).
Proof.
  assert (Hrun : run (H := atmega328p) later_calls three_pins_system =
                 Some three_pins_later_system) by (vm_compute; reflexivity).
  assert (Hinst : _instance three_pins_later_system = Some three_pins_later)
    by (vm_compute; reflexivity).
  assert (Hs : shaped three_pins) by (repeat split; reflexivity).
  assert (Ha : Forall (fun a => a ∈ rate_values) (_LED_add three_pins)).
  { unfold rate_values. cbn. repeat constructor. }
  split; [exact Hrun |]. split; [exact Hinst |].
  exact (phase_stays_below_PHASE_MAX (H := atmega328p) later_calls
           three_pins_system three_pins_later_system
           three_pins three_pins_later
           eq_refl Hs eq_refl Ha Hrun Hinst).
Defined.

(** ** C9: the 8-bit sum is exact *)

Lemma ticks_numDerivedPins (k : nat) (t : pinToggler) (h : hardware) :
  numDerivedPins (fst (ticks k (t, h))) = numDerivedPins t.
Proof.
  induction k as [| k IH]; [reflexivity |].
  rewrite ticks_S. unfold doLoop.
  destruct (for_loop_loop_body_frame
              (numDerivedPins (fst (ticks k (t, h)))) (ticks k (t, h)))
    as (Hn & _).
  rewrite Hn. exact IH.
Qed.

(** C9.  With counters below 8 and increments at most 8, the sum that
    [doLoop] forms for a slot is at most 15 at every tick, so the conversion
    to [uint8_t] leaves it as it is, and the run of [doLoop] is the step
    computed on the integers. *)
Theorem phase_sum_never_wraps (t : pinToggler) (h : hardware) (k i : nat) :
  shaped t ->
  Forall (fun c => 0 <= c < 8) (_LED_count t) ->
  Forall (fun a => 0 <= a <= 8) (_LED_add t) ->
  (i < numDerivedPins t)%nat ->
  let t' := fst (ticks k (t, h)) in
  0 <= _LED_count t' !!! i + _LED_add t' !!! i <= 15 /\
  uint8_t (_LED_count t' !!! i + _LED_add t' !!! i) =
    _LED_count t' !!! i + _LED_add t' !!! i /\
  doLoop (ticks k (t, h)) = step (ticks k (t, h)).
Proof.
  intros Hs Hc Ha Hi t'.
  assert (Hb : bounded t')
    by (apply ticks_bounded; split; [exact Hs | split; [exact Hc | exact Ha]]).
  assert (Hi' : (i < numDerivedPins t')%nat)
    by (subst t'; rewrite ticks_numDerivedPins; exact Hi).
  destruct (bounded_sum t' i Hb Hi') as (Hc' & Ha').
  split; [lia |]. split; [apply uint8_t_small; lia |].
  subst t'. destruct (ticks k (t, h)) as [t1 h1]. cbn [fst] in Hb.
  apply doLoop_step, Hb.
Qed.

Lemma phase_sum_never_wraps_witness :
  shaped three_pins_later /\
  uint8_t (_LED_count (fst (ticks 5 (three_pins_later, blank_board))) !!! 1%nat +
           _LED_add (fst (ticks 5 (three_pins_later, blank_board))) !!! 1%nat) =
    _LED_count (fst (ticks 5 (three_pins_later, blank_board))) !!! 1%nat +
    _LED_add (fst (ticks 5 (three_pins_later, blank_board))) !!! 1%nat.
Proof.
  assert (Hs : shaped three_pins_later) by (repeat split; reflexivity).
  assert (Hc : Forall (fun c => 0 <= c < 8) (_LED_count three_pins_later)).
  { cbn. repeat constructor; lia. }
  assert (Ha : Forall (fun a => 0 <= a <= 8) (_LED_add three_pins_later)).
  { cbn. repeat constructor; lia. }
  split; [exact Hs |].
  exact (proj1 (proj2 (phase_sum_never_wraps three_pins_later blank_board 5 1
                         Hs Hc Ha ltac:(simpl; lia)))).
Defined.

(** ** Two runs of the whole interface *)

(** [init({13, 18, 19})], [setFlashRate(1, MEDIUM)], then 16 ticks: pin 18
    changes level 4 times, pins 13 and 19 never do and read LOW at the end. *)
Example sixteen_ticks :
  inversions 18 16 (three_pins, hw three_pins_system) = 4%nat /\
  inversions 13 16 (three_pins, hw three_pins_system) = 0%nat /\
  inversions 19 16 (three_pins, hw three_pins_system) = 0%nat /\
  digitalRead 13 (snd (ticks 16 (three_pins, hw three_pins_system))) = LOW /\
  digitalRead 19 (snd (ticks 16 (three_pins, hw three_pins_system))) = LOW.
Proof. vm_compute. auto. Qed.

(** [setFlashRate(0, MAX)], then 3 ticks: pin 13 changes level on each. *)
Example three_ticks_at_MAX :
  match _instance (snd (setFlashRate 3 0 MAX three_pins_system)) with
  | Some t => inversions 13 3 (t, hw three_pins_system) = 3%nat
  | None => False
  end.
Proof. vm_compute. reflexivity. Qed.

(** * Further properties of the code *)

(** ** Any eight ticks *)

Lemma slot_toggles_eight (c a : Z) :
  0 <= c < 8 -> a ∈ rate_values -> slot_toggles 8 c a = Z.to_nat a.
Proof.
  intros Hc Ha.
  assert (Hcs : c = 0 \/ c = 1 \/ c = 2 \/ c = 3 \/
                c = 4 \/ c = 5 \/ c = 6 \/ c = 7) by lia.
  unfold rate_values in Ha. rewrite !elem_of_cons, elem_of_nil in Ha.
  destruct Ha as [-> | [-> | [-> | [-> | [-> | []]]]]];
    destruct Hcs as [-> | [-> | [-> | [-> | [-> | [-> | [-> | ->]]]]]]];
    reflexivity.
Qed.

(** X1.  In every state the interface can reach, whatever the counter of a slot
    is at that moment, the next 8 runs of [doLoop] change the level of its
    pin as many times as its increment says, provided the slot is alone on
    the pin. *)
Theorem eight_ticks_from_any_phase `{avr_io} (cs : list call) (h0 : hardware)
    (s : system) (t : pinToggler) (h : hardware) (i : nat) :
  run cs (boot h0) = Some s -> _instance s = Some t ->
  (i < numDerivedPins t)%nat -> sole_driver t i = true ->
  inversions (_LED_Pins t !!! i) 8 (t, h) = Z.to_nat (_LED_add t !!! i).
Proof.
  intros Hrun Hinst Hi Hsole.
  pose proof (reachable_valid cs h0 s t Hrun Hinst) as Hv.
  assert (Hs : shaped t) by (destruct Hv as (Hs & _); exact Hs).
  rewrite inversions_slot_toggles
    by (try assumption; apply sole_driver_drives_alone, Hsole).
  destruct Hv as ((_ & Hlc & Hla) & Hc & Ha).
  apply slot_toggles_eight.
  - apply (Forall_lookup_total_1 _ _ i Hc). lia.
  - apply (Forall_lookup_total_1 _ _ i Ha). lia.
Qed.

Lemma eight_ticks_from_any_phase_witness :
  run (H := atmega328p) all_calls (boot blank_board) =
    Some three_pins_later_system /\
  _LED_count three_pins_later !!! 1%nat = 6 /\
  inversions 18 8 (three_pins_later, blank_board) = 2%nat.
Proof.
  assert (Hrun : run (H := atmega328p) all_calls (boot blank_board) =
                 Some three_pins_later_system) by (vm_compute; reflexivity).
  assert (Hinst : _instance three_pins_later_system = Some three_pins_later)
    by (vm_compute; reflexivity).
  split; [exact Hrun |]. split; [reflexivity |].
  exact (eight_ticks_from_any_phase (H := atmega328p) all_calls blank_board
           three_pins_later_system three_pins_later blank_board 1
           Hrun Hinst ltac:(simpl; lia) eq_refl).
Defined.

(** ** Pins held by several slots, and pins held by none *)

Lemma flips_S (n : nat) (v : Z) : flips (S n) v = 1 - flips n v.
Proof.
  unfold flips. rewrite Nat.even_succ, <- Nat.negb_even.
  destruct (Nat.even n); cbn [negb]; lia.
Qed.

Lemma toggled_upto_flips (t : pinToggler) (pin : Z) (k : nat) (h : hardware) :
  digitalRead pin (toggled_upto t k h) =
    flips
      (for_loop k
         (fun i n =>
            if (_LED_Pins t !!! i =? pin) &&
               fires (_LED_count t !!! i) (_LED_add t !!! i)
            then S n else n)
         O)
      (digitalRead pin h).
Proof.
  induction k as [| k IH]; [reflexivity |].
  unfold toggled_upto. rewrite !for_loop_S. fold (toggled_upto t k h).
  destruct (fires (_LED_count t !!! k) (_LED_add t !!! k)).
  - destruct (Z.eqb_spec (_LED_Pins t !!! k) pin) as [-> | Hne]; cbn [andb].
    + rewrite digitalRead_toggle_eq, flips_S, IH. reflexivity.
    + rewrite digitalRead_toggle_ne by exact Hne. exact IH.
  - rewrite andb_false_r. exact IH.
Qed.

(** X2.  A run of [doLoop] inverts a pin once for each slot that holds it and
    toggles: the pin ends inverted when that number is odd and at its old
    level when it is even, so two slots on one pin that toggle together
    cancel each other. *)
Theorem doLoop_level_parity (t : pinToggler) (h : hardware) (pin : Z) :
  shaped t ->
  digitalRead pin (snd (doLoop (t, h))) =
    flips (firing_on t pin) (digitalRead pin h).
Proof.
  intros Hs. destruct (doLoop_prefix t h Hs) as [_ _ _ _ _ _ Hh].
  rewrite Hh. apply toggled_upto_flips.
Qed.

Lemma doLoop_level_parity_witness :
  shaped both_MAX /\
  firing_on both_MAX 13 = 2%nat /\
  digitalRead 13 (snd (doLoop (both_MAX, blank_board))) =
    digitalRead 13 blank_board.
Proof.
  assert (Hs : shaped both_MAX) by (repeat split; reflexivity).
  split; [exact Hs |]. split; [reflexivity |].
  exact (doLoop_level_parity both_MAX blank_board 13 Hs).
Defined.

Lemma toggled_upto_other_pin (t : pinToggler) (pin : Z) (k : nat)
    (h : hardware) :
  (forall i : nat, (i < k)%nat -> _LED_Pins t !!! i <> pin) ->
  pin_level (toggled_upto t k h) !! pin = pin_level h !! pin.
Proof.
  induction k as [| k IH]; intros Hpins; [reflexivity |].
  unfold toggled_upto. rewrite for_loop_S. fold (toggled_upto t k h).
  assert (IH' : pin_level (toggled_upto t k h) !! pin = pin_level h !! pin)
    by (apply IH; intros i Hi; apply Hpins; lia).
  destruct (fires (_LED_count t !!! k) (_LED_add t !!! k)); [| exact IH'].
  unfold toggle, digitalWrite. cbn [pin_level].
  rewrite lookup_insert_ne by (apply Hpins; lia). exact IH'.
Qed.

(** X3.  A run of [doLoop] writes to the pins of its slots only: the level of a
    pin that no slot holds is never touched. *)
Theorem doLoop_other_pins (t : pinToggler) (h : hardware) (pin : Z) :
  shaped t -> pin ∉ _LED_Pins t ->
  pin_level (snd (doLoop (t, h))) !! pin = pin_level h !! pin.
Proof.
  intros Hs Hpin. destruct (doLoop_prefix t h Hs) as [_ _ _ _ _ _ Hh].
  rewrite Hh. apply toggled_upto_other_pin.
  intros i Hi Heq. apply Hpin. rewrite <- Heq.
  apply list_elem_of_lookup_total_2. destruct Hs as (Hlp & _). lia.
Qed.

Lemma doLoop_other_pins_witness :
  shaped both_MAX /\ (12 ∉ _LED_Pins both_MAX) /\
  pin_level (snd (doLoop (both_MAX, blank_board))) !! 12 =
    pin_level blank_board !! 12.
Proof.
  assert (Hs : shaped both_MAX) by (repeat split; reflexivity).
  assert (Hpin : 12 ∉ _LED_Pins both_MAX).
  { cbn. rewrite !not_elem_of_cons. repeat split; try discriminate.
    apply not_elem_of_nil. }
  split; [exact Hs |]. split; [exact Hpin |].
  exact (doLoop_other_pins both_MAX blank_board 12 Hs Hpin).
Defined.

(** ** An object with every rate [OFF] *)

Lemma list_eq_lookup_total (l1 l2 : list Z) :
  length l1 = length l2 ->
  (forall i : nat, (i < length l1)%nat -> l1 !!! i = l2 !!! i) ->
  l1 = l2.
Proof.
  intros Hlen Hall. apply (list_eq_same_length l1 l2 (length l1)); auto.
  intros i x y Hi H1 H2.
  apply list_lookup_total_correct in H1, H2.
  rewrite <- H1, <- H2. apply Hall, Hi.
Qed.

Lemma toggled_upto_none (t : pinToggler) (k : nat) (h : hardware) :
  (forall i : nat, (i < k)%nat ->
     fires (_LED_count t !!! i) (_LED_add t !!! i) = false) ->
  toggled_upto t k h = h.
Proof.
  induction k as [| k IH]; intros Hnone; [reflexivity |].
  unfold toggled_upto. rewrite for_loop_S. fold (toggled_upto t k h).
  rewrite Hnone by lia. apply IH. intros i Hi. apply Hnone. lia.
Qed.

Lemma doLoop_all_OFF (t : pinToggler) (h : hardware) :
  shaped t ->
  Forall (fun c => 0 <= c < 8) (_LED_count t) ->
  _LED_add t = replicate (numDerivedPins t) 0 ->
  doLoop (t, h) = (t, h).
Proof.
  intros Hs Hc Ha.
  destruct (doLoop_prefix t h Hs) as [Hn Hp Hadd Hl Hd _ Hh].
  destruct Hs as (Hlp & Hlc & Hla).
  assert (Hslot : forall i : nat, (i < numDerivedPins t)%nat ->
            fires (_LED_count t !!! i) (_LED_add t !!! i) = false /\
            next_count (_LED_count t !!! i) (_LED_add t !!! i) =
              _LED_count t !!! i).
  { intros i Hi.
    assert (Hci : 0 <= _LED_count t !!! i < 8)
      by (apply (Forall_lookup_total_1 _ _ i Hc); lia).
    rewrite Ha, lookup_total_replicate_2 by exact Hi.
    unfold next_count, fires. rewrite Z.add_0_r, uint8_t_small by lia.
    destruct (Z.leb_spec 8 (_LED_count t !!! i)); [lia | auto]. }
  destruct (doLoop (t, h)) as [t' h']. cbn [fst snd] in *.
  f_equal.
  - destruct t' as [n' p' c' a'], t as [n p c a]. cbn in *. subst n' p' a'.
    f_equal. apply list_eq_lookup_total; [exact Hl |].
    intros i Hi. rewrite Hd by lia. apply Hslot. lia.
  - rewrite Hh. apply toggled_upto_none. intros i Hi. apply Hslot, Hi.
Qed.

(** X4.  While every increment is 0, as it is after [init], runs of [doLoop]
    change nothing at all: neither the counters nor any pin. *)
Theorem ticks_all_OFF (t : pinToggler) (h : hardware) (k : nat) :
  shaped t ->
  Forall (fun c => 0 <= c < 8) (_LED_count t) ->
  _LED_add t = replicate (numDerivedPins t) 0 ->
  ticks k (t, h) = (t, h).
Proof.
  intros Hs Hc Ha. induction k as [| k IH]; [reflexivity |].
  rewrite ticks_S, IH. apply doLoop_all_OFF; assumption.
Qed.

Lemma ticks_all_OFF_witness :
  shaped (new_pinToggler 3) /\
  ticks 100 (new_pinToggler 3, blank_board) = (new_pinToggler 3, blank_board).
Proof.
  assert (Hs : shaped (new_pinToggler 3)) by (repeat split; reflexivity).
  assert (Hc : Forall (fun c => 0 <= c < 8) (_LED_count (new_pinToggler 3))).
  { cbn. repeat constructor; lia. }
  split; [exact Hs |].
  exact (ticks_all_OFF (new_pinToggler 3) blank_board 100 Hs Hc eq_refl).
Defined.

(** ** The interrupt routine *)

Lemma loop_body_set_TCNT1 (i : nat) (v : Z) (t : pinToggler) (h : hardware) :
  loop_body i (t, set_TCNT1 v h) =
    (fst (loop_body i (t, h)), set_TCNT1 v (snd (loop_body i (t, h)))).
Proof.
  unfold loop_body. cbn zeta.
  match goal with |- context [if ?b then _ else _] => destruct b end;
    reflexivity.
Qed.

Lemma for_loop_set_TCNT1 (k : nat) (v : Z) (t : pinToggler) (h : hardware) :
  for_loop k loop_body (t, set_TCNT1 v h) =
    (fst (for_loop k loop_body (t, h)),
     set_TCNT1 v (snd (for_loop k loop_body (t, h)))).
Proof.
  induction k as [| k IH]; [reflexivity |].
  rewrite !for_loop_S, IH.
  destruct (for_loop k loop_body (t, h)) as [t' h']. cbn [fst snd].
  apply loop_body_set_TCNT1.
Qed.

(** X5.  The interrupt routine has no defined result while there is no object;
    with an object it does to the object and to the pins what [doLoop] does,
    and leaves in TCNT1 the reload value 65536 - 16000000/1024/8 = 63583,
    although the constant is kept in a 16-bit [int] that cannot hold it. *)
Theorem TIMER1_OVF_vect_effect (s : system) :
  match _instance s with
  | None => TIMER1_OVF_vect s = None
  | Some t =>
      TIMER1_OVF_vect s =
        Some (mkSystem (Some (fst (doLoop (t, hw s))))
                (set_TCNT1 (65536 - 16000000 / PRESCALER / FLASH_FREQ_HZ)
                   (snd (doLoop (t, hw s)))))
  end.
Proof.
  unfold TIMER1_OVF_vect. destruct (_instance s) as [t |]; [| reflexivity].
  unfold doLoop. cbn [fst]. rewrite for_loop_set_TCNT1.
  destruct (for_loop (numDerivedPins t) loop_body (t, hw s)) as [t' h'].
  reflexivity.
Qed.

(** ** The object stays *)

Lemma exec_keeps_object `{avr_io} (c : call) (s : system) (t : pinToggler) :
  _instance s = Some t ->
  exists (s' : system) (t' : pinToggler),
    exec c s = Some s' /\ _instance s' = Some t' /\
    numDerivedPins t' = numDerivedPins t /\ _LED_Pins t' = _LED_Pins t.
Proof.
  intros Hinst. destruct c as [numPins LED_Pins | numPins LED rate |].
  - exists s, t. cbn. unfold init. rewrite Hinst. auto.
  - cbn. unfold setFlashRate. rewrite Hinst.
    destruct (negb (numDerivedPins t =? numPins)%nat);
      [exists s, t; auto |].
    destruct (numPins <=? LED)%nat; [exists s, t; auto |].
    eexists _, _. cbn. split; [reflexivity |]. split; [reflexivity |]. auto.
  - cbn. unfold TIMER1_OVF_vect. rewrite Hinst.
    pose proof (for_loop_loop_body_frame (numDerivedPins t)
                  (t, set_TCNT1 (uint16_t timer1_counter) (hw s)))
      as (Hn & Hp & _).
    unfold doLoop. cbn [fst] in *.
    destruct (for_loop (numDerivedPins t) loop_body
                (t, set_TCNT1 (uint16_t timer1_counter) (hw s))) as [t' h'].
    exists (mkSystem (Some t') h'), t'. cbn [fst] in *. auto.
Qed.

(** X6.  Once an object is installed, no call and no interrupt fails or removes
    it, and it keeps its number of pins and its pin numbers for ever: in
    particular the interrupt routine never finds a null pointer again. *)
Theorem object_stays_installed `{avr_io} (cs : list call) :
  forall (s : system) (t : pinToggler),
  _instance s = Some t ->
  exists (s' : system) (t' : pinToggler),
    run cs s = Some s' /\ _instance s' = Some t' /\
    numDerivedPins t' = numDerivedPins t /\ _LED_Pins t' = _LED_Pins t.
Proof.
  induction cs as [| c cs IH]; intros s t Hinst.
  - exists s, t. auto.
  - destruct (exec_keeps_object c s t Hinst) as (s1 & t1 & Hexec & H1 & Hn & Hp).
    destruct (IH s1 t1 H1) as (s' & t' & Hrun & H' & Hn' & Hp').
    exists s', t'. cbn. rewrite Hexec.
    split; [exact Hrun |]. split; [exact H' |]. split; congruence.
Qed.

Lemma object_stays_installed_witness :
  _instance three_pins_system = Some three_pins /\
  exists (s' : system) (t' : pinToggler),
    run (H := atmega328p) later_calls three_pins_system = Some s' /\
    _instance s' = Some t' /\ _LED_Pins t' = [13; 18; 19].
Proof.
  split; [reflexivity |].
  destruct (object_stays_installed (H := atmega328p) later_calls
              three_pins_system three_pins eq_refl)
    as (s' & t' & Hrun & Hinst & _ & Hp).
  exists s', t'. auto.
Defined.

(** ** Several calls of [setFlashRate] *)

(** X7.  Two [setFlashRate] calls for different slots can be made in either
    order: the system they leave is the same, also when one of them or both
    are refused. *)
Theorem setFlashRate_commute (numPins LED1 LED2 : nat)
    (rate1 rate2 : FLASHRATE) (s : system) :
  LED1 <> LED2 ->
  snd (setFlashRate numPins LED2 rate2
         (snd (setFlashRate numPins LED1 rate1 s))) =
  snd (setFlashRate numPins LED1 rate1
         (snd (setFlashRate numPins LED2 rate2 s))).
Proof.
  intros Hne. unfold setFlashRate.
  destruct (_instance s) as [t |] eqn:Hinst; cbn [snd];
    [| rewrite Hinst; reflexivity].
  destruct (negb (numDerivedPins t =? numPins)%nat) eqn:Hshape; cbn [snd].
  { rewrite Hinst, Hshape. reflexivity. }
  destruct (numPins <=? LED1)%nat eqn:H1, (numPins <=? LED2)%nat eqn:H2;
    cbn [snd _instance numDerivedPins set_LED_add _LED_add hw];
    rewrite ?Hinst, ?Hshape; cbn [snd]; try reflexivity.
  cbn. rewrite list_insert_insert_ne by congruence. reflexivity.
Qed.

Lemma setFlashRate_commute_witness :
  snd (setFlashRate 3 2 FAST (snd (setFlashRate 3 0 SLOW three_pins_system))) =
  snd (setFlashRate 3 0 SLOW (snd (setFlashRate 3 2 FAST three_pins_system))).
Proof.
  exact (setFlashRate_commute 3 0 2 SLOW FAST three_pins_system
           ltac:(discriminate)).
Defined.

(** X8.  The last [setFlashRate] for a slot decides: a call followed by a call for
    the same slot leaves the system that the second call alone leaves. *)
Theorem setFlashRate_overwrites (numPins LED : nat) (rate1 rate2 : FLASHRATE)
    (s : system) :
  setFlashRate numPins LED rate2 (snd (setFlashRate numPins LED rate1 s)) =
  setFlashRate numPins LED rate2 s.
Proof.
  unfold setFlashRate.
  destruct (_instance s) as [t |] eqn:Hinst; cbn [snd];
    [| rewrite Hinst; reflexivity].
  destruct (negb (numDerivedPins t =? numPins)%nat) eqn:Hshape; cbn [snd].
  { rewrite Hinst, Hshape. reflexivity. }
  destruct (numPins <=? LED)%nat eqn:Hidx; cbn [snd].
  { rewrite Hinst, Hshape. reflexivity. }
  cbn [snd _instance numDerivedPins set_LED_add _LED_add hw].
  rewrite Hshape, list_insert_insert_eq. reflexivity.
Qed.

(** ** [setFlashRate] and the next tick *)

(** X9.  A new rate is used from the next run of [doLoop] on: the slot continues
    from the counter it has, with the new increment, and the counters of the
    other slots move as they would have without the call. *)
Theorem setFlashRate_then_doLoop `{avr_io} (cs : list call) (h0 : hardware)
    (s : system) (t : pinToggler) (numPins LED : nat) (rate : FLASHRATE)
    (h : hardware) :
  run cs (boot h0) = Some s -> _instance s = Some t ->
  fst (setFlashRate numPins LED rate s) = 0 ->
  exists t1 : pinToggler,
    _instance (snd (setFlashRate numPins LED rate s)) = Some t1 /\
    _LED_count (fst (doLoop (t1, h))) !!! LED =
      (if 8 <=? _LED_count t !!! LED + FLASHRATE_value rate
       then 0 else _LED_count t !!! LED + FLASHRATE_value rate) /\
    forall j : nat, (j < numDerivedPins t)%nat -> j <> LED ->
      _LED_count (fst (doLoop (t1, h))) !!! j =
      _LED_count (fst (doLoop (t, h))) !!! j.
Proof.
  intros Hrun Hinst Hr.
  pose proof (reachable_valid cs h0 s t Hrun Hinst) as Hv.
  unfold setFlashRate in *. rewrite Hinst in *.
  destruct (Nat.eqb_spec (numDerivedPins t) numPins) as [Heq | Hne];
    cbn [negb] in *; [| discriminate].
  destruct (Nat.leb_spec numPins LED) as [Hge | Hlt]; [discriminate |].
  cbn [fst snd _instance] in *.
  eexists. split; [reflexivity |].
  set (t1 := set_LED_add
               (<[LED := uint8_t (FLASHRATE_value rate)]> (_LED_add t)) t).
  destruct Hv as ((Hlp & Hlc & Hla) & Hc & Ha).
  assert (Hs : shaped t) by (repeat split; assumption).
  assert (Hs1 : shaped t1)
    by (unfold shaped, t1; cbn; rewrite length_insert; auto).
  assert (Hrate : uint8_t (FLASHRATE_value rate) = FLASHRATE_value rate)
    by (destruct rate; reflexivity).
  split.
  - rewrite doLoop_count by (try exact Hs1; cbn; lia).
    unfold t1. cbn [_LED_count _LED_add set_LED_add].
    rewrite list_lookup_total_insert_eq by lia. rewrite Hrate.
    assert (Hci : 0 <= _LED_count t !!! LED < 8)
      by (apply (Forall_lookup_total_1 _ _ LED Hc); lia).
    unfold next_count, fires.
    rewrite uint8_t_small by (destruct rate; cbn; lia). reflexivity.
  - intros j Hj Hne.
    rewrite !doLoop_count by (try assumption; cbn; lia).
    unfold t1. cbn [_LED_count _LED_add set_LED_add].
    rewrite list_lookup_total_insert_ne by congruence. reflexivity.
Qed.

Lemma setFlashRate_then_doLoop_witness :
  run (H := atmega328p) all_calls (boot blank_board) =
    Some three_pins_later_system /\
  fst (setFlashRate 3 1 FAST three_pins_later_system) = 0 /\
  exists t1 : pinToggler,
    _instance (snd (setFlashRate 3 1 FAST three_pins_later_system)) =
      Some t1 /\
    _LED_count (fst (doLoop (t1, blank_board))) !!! 1%nat = 0.
Proof.
  assert (Hrun : run (H := atmega328p) all_calls (boot blank_board) =
                 Some three_pins_later_system) by (vm_compute; reflexivity).
  assert (Hinst : _instance three_pins_later_system = Some three_pins_later)
    by (vm_compute; reflexivity).
  split; [exact Hrun |]. split; [reflexivity |].
  destruct (setFlashRate_then_doLoop (H := atmega328p) all_calls blank_board
              three_pins_later_system three_pins_later 3 1 FAST blank_board
              Hrun Hinst eq_refl)
    as (t1 & Ht1 & Hc & _).
  exists t1. split; [exact Ht1 | exact Hc].
Defined.

(** ** [init] followed by [setFlashRate] *)

(** X10.  After the [init] that builds the object, a [setFlashRate] with the same
    number of pins accepts exactly the indices below that number; the object
    then has the value of [rate] as the increment of that slot, 0 as every
    other increment, and every counter at 0. *)
Theorem init_then_setFlashRate `{avr_io} (numPins : nat) (LED_Pins : list Z)
    (s : system) (LED : nat) (rate : FLASHRATE) :
  _instance s = None ->
  fst (setFlashRate numPins LED rate (snd (init numPins LED_Pins s))) =
    (if (LED <? numPins)%nat then 0 else -3) /\
  exists t : pinToggler,
    _instance (snd (setFlashRate numPins LED rate
                      (snd (init numPins LED_Pins s)))) = Some t /\
    _LED_add t = <[LED := FLASHRATE_value rate]> (replicate numPins 0) /\
    _LED_count t = replicate numPins 0.
Proof.
  intros Hnone. unfold init. rewrite Hnone.
  pose proof (setupSingleton_new numPins LED_Pins (hw s)) as Hsetup.
  cbn zeta in Hsetup.
  destruct (setupSingleton LED_Pins (new_pinToggler numPins, hw s))
    as [t h'].
  cbn [fst snd] in *. destruct Hsetup as (Hn & Hc & Ha & _ & _).
  unfold setFlashRate. cbn [_instance].
  rewrite Hn, Nat.eqb_refl. cbn [negb].
  destruct (Nat.leb_spec numPins LED) as [Hge | Hlt].
  - replace (LED <? numPins)%nat with false
      by (symmetry; apply Nat.ltb_ge; exact Hge).
    cbn [fst snd _instance]. split; [reflexivity |].
    exists t. split; [reflexivity |]. split; [| exact Hc].
    rewrite Ha, list_insert_ge by (rewrite length_replicate; exact Hge).
    reflexivity.
  - replace (LED <? numPins)%nat with true
      by (symmetry; apply Nat.ltb_lt; exact Hlt).
    cbn [fst snd _instance]. split; [reflexivity |].
    eexists. split; [reflexivity |]. cbn [_LED_add _LED_count set_LED_add].
    split; [| exact Hc].
    rewrite Ha. f_equal. destruct rate; reflexivity.
Qed.

Lemma init_then_setFlashRate_witness :
  _instance (boot blank_board) = None /\
  fst (setFlashRate 3 1 MEDIUM
         (snd (init (H := atmega328p) 3 [13; 18; 19] (boot blank_board)))) = 0.
Proof.
  split; [reflexivity |].
  exact (proj1 (init_then_setFlashRate (H := atmega328p) 3 [13; 18; 19]
                  (boot blank_board) 1 MEDIUM eq_refl)).
Defined.

(** ** What [init] does to the board *)

Lemma setup_body_board (LED_Pins : list Z) (pin : Z) (k : nat)
    (t : pinToggler) (h : hardware) :
  (forall i : nat, (i < k)%nat -> LED_Pins !!! i <> pin) ->
  let h' := snd (for_loop k (setup_body LED_Pins) (t, h)) in
  pin_mode h' !! pin = pin_mode h !! pin /\
  pin_level h' !! pin = pin_level h !! pin.
Proof.
  induction k as [| k IH]; intros Hpins; cbn zeta.
  - rewrite for_loop_0. auto.
  - rewrite for_loop_S.
    destruct IH as (Hm & Hl); [intros i Hi; apply Hpins; lia |].
    destruct (for_loop k (setup_body LED_Pins) (t, h)) as [t' h'].
    cbn [fst snd] in *. unfold setup_body, pinMode, digitalWrite. cbn.
    rewrite !lookup_insert_ne by (apply Hpins; lia). auto.
Qed.

(** X11.  The [init] that builds the object touches, of all pins, only those it is
    given: the direction and the level of any other pin are as before. *)
Theorem init_other_pins `{avr_io} (numPins : nat) (LED_Pins : list Z)
    (s : system) (pin : Z) :
  _instance s = None -> (numPins <= length LED_Pins)%nat ->
  pin ∉ take numPins LED_Pins ->
  pin_mode (hw (snd (init numPins LED_Pins s))) !! pin =
    pin_mode (hw s) !! pin /\
  pin_level (hw (snd (init numPins LED_Pins s))) !! pin =
    pin_level (hw s) !! pin.
Proof.
  intros Hnone Hlen Hpin. unfold init. rewrite Hnone.
  unfold setupSingleton. cbn [fst].
  replace (numDerivedPins (new_pinToggler numPins)) with numPins
    by reflexivity.
  pose proof (setup_body_board LED_Pins pin numPins
                (new_pinToggler numPins) (hw s)) as Hboard.
  cbn zeta in Hboard.
  destruct (for_loop numPins (setup_body LED_Pins)
              (new_pinToggler numPins, hw s)) as [t' h'].
  cbn [fst snd] in *. cbn.
  destruct Hboard as (Hm & Hl); [| auto].
  intros i Hi Heq. apply Hpin. rewrite <- Heq.
  rewrite <- (lookup_total_take_lt LED_Pins numPins i) by exact Hi.
  apply list_elem_of_lookup_total_2. rewrite length_take. lia.
Qed.

Lemma init_other_pins_witness :
  (12 ∉ take 3 [13; 18; 19]) /\
  pin_mode
    (hw (snd (init (H := atmega328p) 3 [13; 18; 19] (boot blank_board))))
    !! 12 = None.
Proof.
  assert (Hpin : 12 ∉ take 3 [13; 18; 19]).
  { cbn. rewrite !not_elem_of_cons. repeat split; try discriminate.
    apply not_elem_of_nil. }
  split; [exact Hpin |].
  exact (proj1 (init_other_pins (H := atmega328p) 3 [13; 18; 19]
                  (boot blank_board) 12 eq_refl ltac:(simpl; lia) Hpin)).
Defined.

Lemma setup_body_TIMSK1 (LED_Pins : list Z) (k : nat)
    (t : pinToggler) (h : hardware) :
  TIMSK1 (snd (for_loop k (setup_body LED_Pins) (t, h))) = TIMSK1 h.
Proof.
  induction k as [| k IH]; [reflexivity |].
  rewrite for_loop_S.
  destruct (for_loop k (setup_body LED_Pins) (t, h)) as [t' h'].
  exact IH.
Qed.

Lemma testbit_shiftl_1 (c b : Z) :
  0 <= c -> Z.testbit (Z.shiftl 1 c) b = (b =? c).
Proof.
  intros Hc. rewrite Z.shiftl_1_l, Z.pow2_bits_eqb by exact Hc.
  apply Z.eqb_sym.
Qed.

Lemma testbit_uint8_t (z b : Z) :
  Z.testbit (uint8_t z) b = (b <? 8) && Z.testbit z b.
Proof.
  unfold uint8_t. change 256 with (2 ^ 8).
  apply Z.testbit_mod_pow2. lia.
Qed.

(** X12.  The [init] that builds the object arms TIMER1 whatever the registers
    held: TCCR1A is cleared, TCCR1B has the bits CS12 and CS10 and no other,
    TCNT1 holds 65536 - 16000000/1024/8, TIMSK1 has gained the bit TOIE1
    and kept its other bits, and interrupts are enabled. *)
Theorem init_arms_timer `{avr_io} (numPins : nat) (LED_Pins : list Z)
    (s : system) :
  _instance s = None ->
  0 <= CS12 < 8 -> 0 <= CS10 < 8 -> 0 <= TOIE1 < 8 ->
  0 <= TIMSK1 (hw s) < 256 ->
  let h' := hw (snd (init numPins LED_Pins s)) in
  TCCR1A h' = 0 /\
  (forall b : Z, Z.testbit (TCCR1B h') b = (b =? CS12) || (b =? CS10)) /\
  TCNT1 h' = 65536 - 16000000 / PRESCALER / FLASH_FREQ_HZ /\
  (forall b : Z,
     Z.testbit (TIMSK1 h') b = (b =? TOIE1) || Z.testbit (TIMSK1 (hw s)) b) /\
  global_interrupts h' = true.
Proof.
  intros Hnone H12 H10 HOIE Hmask. cbn zeta. unfold init. rewrite Hnone.
  unfold setupSingleton. cbn [fst].
  replace (numDerivedPins (new_pinToggler numPins)) with numPins
    by reflexivity.
  pose proof (setup_body_TIMSK1 LED_Pins numPins (new_pinToggler numPins)
                (hw s)) as Hmask'.
  destruct (for_loop numPins (setup_body LED_Pins)
              (new_pinToggler numPins, hw s)) as [t' h'].
  cbn [fst snd] in *. cbn.
  split; [reflexivity |]. split; [| split; [reflexivity | split; [| reflexivity]]].
  - intros b. rewrite !testbit_uint8_t, !Z.lor_spec, !testbit_uint8_t.
    rewrite !Z.lor_spec, !testbit_shiftl_1 by lia.
    rewrite Z.bits_0. cbn [orb].
    destruct (Z.ltb_spec b 8) as [Hlt | Hge]; cbn [andb]; [reflexivity |].
    symmetry. apply orb_false_iff. split; apply Z.eqb_neq; lia.
  - intros b. rewrite testbit_uint8_t, Z.lor_spec, testbit_shiftl_1 by lia.
    rewrite Hmask', orb_comm.
    destruct (Z.ltb_spec b 8) as [Hlt | Hge]; cbn [andb]; [reflexivity |].
    symmetry. apply orb_false_iff. split; [apply Z.eqb_neq; lia |].
    destruct (Z.ltb_spec b 0) as [Hneg | Hpos];
      [apply Z.testbit_neg_r; exact Hneg |].
    apply Z.bits_above_log2; [lia |].
    destruct (Z.eq_dec (TIMSK1 (hw s)) 0) as [-> | Hnz]; [cbn; lia |].
    apply Z.log2_lt_pow2; [lia |].
    assert (2 ^ 8 <= 2 ^ b) by (apply Z.pow_le_mono_r; lia). lia.
Qed.

Lemma init_arms_timer_witness :
  _instance (boot blank_board) = None /\
  0 <= CS12 (avr_io := atmega328p) < 8 /\
  0 <= TIMSK1 (hw (boot blank_board)) < 256 /\
  TCCR1A
    (hw (snd (init (H := atmega328p) 3 [13; 18; 19] (boot blank_board)))) = 0.
Proof.
  split; [reflexivity |]. split; [cbn; lia |]. split; [cbn; lia |].
  exact (proj1 (init_arms_timer (H := atmega328p) 3 [13; 18; 19]
                  (boot blank_board) eq_refl
                  ltac:(cbn; lia) ltac:(cbn; lia) ltac:(cbn; lia)
                  ltac:(cbn; lia))).
Defined.

(** On the ATmega328P the prescaler bits are 101: the clock divided by
    1024. *)
Example init_prescaler :
  TCCR1B
    (hw (snd (init (H := atmega328p) 3 [13; 18; 19] (boot blank_board)))) = 5.
Proof. reflexivity. Qed.
